(** * elysia-paseto: the claims layer above the PASETO v4.local codec

    A shallow embedding of [src/index.ts]: the duration parser
    [convertExpiration], the key normaliser [prepareSecret], the plugin
    constructor [paseto] and the two operations [sign] and [verify] it
    decorates the server with.

    The external collaborators are kept at their boundary.  The codec of
    [paseto-ts/v4] ([encrypt], [decrypt]) is a parameter of the development;
    every call into it, and every console message, is recorded in a trace,
    so that statements of the form "the codec is not invoked" or "the codec
    is asked to add an expiry" are statements about that trace. *)

From Stdlib Require Import ZArith NArith Lia List.
From Stdlib.Strings Require Import Ascii String Byte.
From stdpp Require Import base option list gmap pretty.
Import ListNotations.

Local Open Scope N_scope.
Set Warnings "-register-all".

(* ===================================================================== *)
(** ** JavaScript strings and byte arrays *)
(* ===================================================================== *)

(** A JavaScript string is a sequence of UTF-16 code units; a code unit is
    a number below [2^16]. *)
Abbreviation code_unit := N (only parsing).
Abbreviation jsstring := (list N) (only parsing).

(** String literals of the source, written as Rocq strings (they are all
    ASCII). *)
Definition js (s : string) : jsstring :=
  map N_of_ascii (list_ascii_of_string s).

(** [s.startsWith(p)] *)
Fixpoint startsWith (s p : jsstring) : bool :=
  match p, s with
  | [], _ => true
  | _ :: _, [] => false
  | c :: p', d :: s' => (c =? d) && startsWith s' p'
  end.

(** JavaScript truthiness of a string: only the empty string is falsy. *)
Definition truthy_string (s : jsstring) : bool :=
  match s with [] => false | _ :: _ => true end.

(** An element of a [Uint8Array]. *)
Definition byte_of_N (n : N) : byte :=
  match Byte.of_N (n mod 256) with
  | Some b => b
  | None => x00
  end.

(* ---------------------------------------------------------------------- *)
(** *** [TextEncoder.encode]: UTF-8 *)

Definition is_high_surrogate (c : code_unit) : bool :=
  (0xD800 <=? c) && (c <=? 0xDBFF).
Definition is_low_surrogate (c : code_unit) : bool :=
  (0xDC00 <=? c) && (c <=? 0xDFFF).

(** The UTF-8 bytes of one code point. *)
Definition utf8_code_point (cp : N) : list byte :=
  if cp <? 0x80 then [byte_of_N cp]
  else if cp <? 0x800 then
    [byte_of_N (0xC0 + N.shiftr cp 6);
     byte_of_N (0x80 + N.land cp 0x3F)]
  else if cp <? 0x10000 then
    [byte_of_N (0xE0 + N.shiftr cp 12);
     byte_of_N (0x80 + N.land (N.shiftr cp 6) 0x3F);
     byte_of_N (0x80 + N.land cp 0x3F)]
  else
    [byte_of_N (0xF0 + N.shiftr cp 18);
     byte_of_N (0x80 + N.land (N.shiftr cp 12) 0x3F);
     byte_of_N (0x80 + N.land (N.shiftr cp 6) 0x3F);
     byte_of_N (0x80 + N.land cp 0x3F)].

(** [new TextEncoder().encode(s)]: a surrogate pair is one code point, a
    lone surrogate is replaced by U+FFFD. *)
Fixpoint TextEncoder_encode (s : jsstring) : list byte :=
  match s with
  | [] => []
  | c :: s' =>
      if is_high_surrogate c then
        match s' with
        | d :: s'' =>
            if is_low_surrogate d then
              utf8_code_point (0x10000 + (c - 0xD800) * 0x400 + (d - 0xDC00))
                ++ TextEncoder_encode s''
            else utf8_code_point 0xFFFD ++ TextEncoder_encode s'
        | [] => utf8_code_point 0xFFFD
        end
      else if is_low_surrogate c then
        utf8_code_point 0xFFFD ++ TextEncoder_encode s'
      else utf8_code_point c ++ TextEncoder_encode s'
  end.

(* ---------------------------------------------------------------------- *)
(** *** [Buffer.toString("base64url")]: RFC 4648 section 5, unpadded *)

Definition base64url_alphabet : jsstring :=
  js "ABCDEFGHIJKLMNOPQRSTUVWXYZabcdefghijklmnopqrstuvwxyz0123456789-_".

Definition base64url_char (sextet : N) : code_unit :=
  nth (N.to_nat sextet) base64url_alphabet 0.

Fixpoint base64url (bs : list byte) : jsstring :=
  match bs with
  | [] => []
  | [b1] =>
      let n1 := Byte.to_N b1 in
      [base64url_char (N.shiftr n1 2);
       base64url_char (N.shiftl (N.land n1 3) 4)]
  | [b1; b2] =>
      let n1 := Byte.to_N b1 in
      let n2 := Byte.to_N b2 in
      [base64url_char (N.shiftr n1 2);
       base64url_char (N.lor (N.shiftl (N.land n1 3) 4) (N.shiftr n2 4));
       base64url_char (N.shiftl (N.land n2 15) 2)]
  | b1 :: b2 :: b3 :: rest =>
      let n1 := Byte.to_N b1 in
      let n2 := Byte.to_N b2 in
      let n3 := Byte.to_N b3 in
      [base64url_char (N.shiftr n1 2);
       base64url_char (N.lor (N.shiftl (N.land n1 3) 4) (N.shiftr n2 4));
       base64url_char (N.lor (N.shiftl (N.land n2 15) 2) (N.shiftr n3 6));
       base64url_char (N.land n3 63)]
      ++ base64url rest
  end.

(* ===================================================================== *)
(** ** Errors *)
(* ===================================================================== *)

(** A thrown JavaScript error, by constructor and message. *)
Inductive error : Type :=
  | Error (message : jsstring)
  | RangeError (message : jsstring).

(** A computation that returns or throws. *)
Inductive result (A : Type) : Type :=
  | Ok (a : A)
  | Throw (e : error).
Arguments Ok {A} a.
Arguments Throw {A} e.

Definition result_bind {A B} (r : result A) (k : A -> result B) : result B :=
  match r with
  | Ok a => k a
  | Throw e => Throw e
  end.

(** The two construction-time failures, under the names the specification
    gives them. *)
Definition MissingSecret : error :=
  Error (js "PASETO secret is required").
Definition InvalidDurationFormat (exp : jsstring) : error :=
  Error (js "Invalid expiration format: " ++ exp).

(* ===================================================================== *)
(** ** Key normaliser: [prepareSecret] *)
(* ===================================================================== *)

(** [target.set(source)] on typed arrays: copies [source] over the front of
    [target]; a source longer than the target is a [RangeError]. *)
Definition Uint8Array_set (target source : list byte) : result (list byte) :=
  if (length source <=? length target)%nat
  then Ok (source ++ drop (length source) target)
  else Throw (RangeError (js "offset is out of bounds")).

(** [new Uint8Array(n)]: [n] zero bytes. *)
Definition Uint8Array_new (n : nat) : list byte := replicate n x00.

(** [bytes.slice(0, n)] *)
Definition slice0 (n : nat) (bytes : list byte) : list byte := take n bytes.

Definition paserk_prefix : jsstring := js "k4.local.".

(** The 32 bytes of key material cut out of a secret (lines 81-94). *)
Definition keyBytes (secret : jsstring) : result (list byte) :=
  let secretBytes := TextEncoder_encode secret in
  if (length secretBytes <? 32)%nat then
    Uint8Array_set (Uint8Array_new 32) secretBytes
  else if (32 <? length secretBytes)%nat then
    Ok (slice0 32 secretBytes)
  else
    Ok secretBytes.

Definition prepareSecret (secret : jsstring) : result jsstring :=
  if startsWith secret paserk_prefix then Ok secret
  else
    result_bind (keyBytes secret) (fun kb =>
    Ok (paserk_prefix ++ base64url kb)).

(* ===================================================================== *)
(** ** Numbers and claim values *)
(* ===================================================================== *)

(** Numbers are modelled at their integer values, where [%] is the
    truncated remainder [Z.rem] and [/] on an exact multiple is the integer
    quotient.  [String(n)] is the decimal numeral; that is what JavaScript
    prints for the safe integers, the integers of absolute value at most
    [2^53 - 1].  Beyond them a double prints its shortest digits that read
    back, and from [1e21] on an exponent. *)
Definition Number_toString (n : Z) : jsstring := js (pretty n).

(** [Number.isSafeInteger(n)], for an integer [n]. *)
Definition safe_integer (n : Z) : Prop :=
  (- (2 ^ 53 - 1) <= n <= 2 ^ 53 - 1)%Z.

(** A claim value: [PasetoPayload] is [{ [key: string]: any }]. *)
Inductive jsval : Type :=
  | JUndefined
  | JNull
  | JBool (b : bool)
  | JNum (n : Z)
  | JStr (s : jsstring)
  | JArr (items : list jsval)
  | JObj (fields : list (jsstring * jsval)).

(** [!!v] *)
Definition truthy (v : jsval) : bool :=
  match v with
  | JUndefined | JNull => false
  | JBool b => b
  | JNum n => negb (n =? 0)%Z
  | JStr s => truthy_string s
  | JArr _ | JObj _ => true
  end.

(** A claim set: property name to value. *)
Abbreviation PasetoPayload := (gmap (list N) jsval) (only parsing).

(** [claims.exp] on a claim set whose properties are all its own, such as
    the fresh copy [sign] makes (its prototype, [Object.prototype], has no
    [exp]): a missing property reads as [undefined]. *)
Definition get_exp (payload : PasetoPayload) : jsval :=
  default JUndefined (payload !! js "exp").

(** The object a caller hands to [sign].  The spread [{ ...payload }]
    copies its own enumerable properties and nothing else; a read such as
    [payload.exp] also finds the properties the spread leaves behind: own
    ones that are not enumerable, and those of the prototype chain.
    Properties are data properties. *)
Record PayloadObject : Type := {
  own_enumerable : PasetoPayload;
  not_enumerated : PasetoPayload
}.

(** An object literal, or what [JSON.parse] returns: every property is its
    own and enumerable. *)
Definition plain (claims : PasetoPayload) : PayloadObject :=
  {| own_enumerable := claims; not_enumerated := ∅ |}.

(** [{ ...payload }] *)
Definition spread (payload : PayloadObject) : PasetoPayload :=
  own_enumerable payload.

(** The property a read of [payload[key]] finds: an own enumerable one
    first, as it shadows the prototype chain. *)
Definition lookup_property (payload : PayloadObject) (key : jsstring)
  : option jsval :=
  match own_enumerable payload !! key with
  | Some v => Some v
  | None => not_enumerated payload !! key
  end.

(** [payload.exp] *)
Definition read_exp (payload : PayloadObject) : jsval :=
  default JUndefined (lookup_property payload (js "exp")).

(* ===================================================================== *)
(** ** Duration parser: [convertExpiration] *)
(* ===================================================================== *)

(** [exp?: string | number] *)
Inductive exp_option : Type :=
  | ExpString (s : jsstring)
  | ExpNumber (n : Z).

Definition is_digit (c : code_unit) : bool := (48 <=? c) && (c <=? 57).

(** The class [[smhdw]]. *)
Definition is_unit_letter (c : code_unit) : bool :=
  existsb (N.eqb c) (js "smhdw").

(** [/^(\d+)([smhdw])$/] after its first digit: more digits, then one unit
    letter, then the end of the input.  The result is the rest of group 1
    and group 2. *)
Fixpoint match_digits_then_unit (s : jsstring) : option (jsstring * jsstring) :=
  match s with
  | [] => None
  | c :: s' =>
      if is_digit c then
        match match_digits_then_unit s' with
        | Some (value, unit) => Some (c :: value, unit)
        | None => None
        end
      else if is_unit_letter c then
        match s' with
        | [] => Some ([], [c])
        | _ :: _ => None
        end
      else None
  end.

(** [exp.match(/^(\d+)([smhdw])$/)]: the two capture groups, or no match. *)
Definition match_expiration (s : jsstring) : option (jsstring * jsstring) :=
  match s with
  | [] => None
  | c :: s' =>
      if is_digit c then
        match match_digits_then_unit s' with
        | Some (value, unit) => Some (c :: value, unit)
        | None => None
        end
      else None
  end.

(** The table [units] (lines 53-59). *)
Definition units : list (jsstring * jsstring) :=
  [ (js "s", js "seconds");
    (js "m", js "minutes");
    (js "h", js "hours");
    (js "d", js "days");
    (js "w", js "weeks") ].

Fixpoint lookup_unit (table : list (jsstring * jsstring)) (key : jsstring)
  : option jsstring :=
  match table with
  | [] => None
  | (k, v) :: table' =>
      if bool_decide (k = key) then Some v else lookup_unit table' key
  end.

(** A value inside a template literal; [undefined] prints as its name. *)
Definition template_string (v : option jsstring) : jsstring :=
  default (js "undefined") v.

Definition convertExpiration (exp : exp_option) : result jsstring :=
  match exp with
  | ExpNumber n =>
      if (Z.rem n 86400 =? 0)%Z then
        Ok (Number_toString (Z.quot n 86400) ++ js " days")
      else if (Z.rem n 3600 =? 0)%Z then
        Ok (Number_toString (Z.quot n 3600) ++ js " hours")
      else if (Z.rem n 60 =? 0)%Z then
        Ok (Number_toString (Z.quot n 60) ++ js " minutes")
      else
        Ok (Number_toString n ++ js " seconds")
  | ExpString s =>
      match match_expiration s with
      | None => Throw (InvalidDurationFormat s)
      | Some (value, unit) =>
          (* [unit ?? "s"]: group 2 of a match is never undefined *)
          let unitName := lookup_unit units unit in
          Ok (value ++ js " " ++ template_string unitName)
      end
  end.

(* ===================================================================== *)
(** ** The plugin constructor: [paseto] *)
(* ===================================================================== *)

(** [PasetoOptions].  [secret] is declared required, but the constructor
    tests for its absence, so it is optional here. *)
Record PasetoOptions : Type := {
  name : option jsstring;
  secret : option jsstring;
  exp : option exp_option
}.

(** Truthiness of [options.exp]. *)
Definition truthy_exp (exp : option exp_option) : bool :=
  match exp with
  | None => false
  | Some (ExpString s) => truthy_string s
  | Some (ExpNumber n) => negb (n =? 0)%Z
  end.

(** What the closures [sign] and [verify] capture from [paseto]. *)
Record Plugin : Type := {
  plugin_name : jsstring;          (* the Elysia instance name *)
  decorator : jsstring;            (* the property the closures hang on *)
  secretKey : jsstring;
  configured_exp : option exp_option;
  defaultExpiration : jsstring
}.

(** [a || b] on an optional string. *)
Definition or_else (a : option jsstring) (b : jsstring) : jsstring :=
  match a with
  | Some s => if truthy_string s then s else b
  | None => b
  end.

Definition paseto (options : option PasetoOptions) : result Plugin :=
  let name := or_else (options ≫= name) (js "paseto") in
  let secret := options ≫= secret in
  let exp := options ≫= exp in
  match secret with
  | None => Throw MissingSecret
  | Some secret =>
      if negb (truthy_string secret) then Throw MissingSecret
      else
        result_bind (prepareSecret secret) (fun secretKey =>
        result_bind
          (match exp with
           | Some e => if truthy_exp exp then convertExpiration e
                       else Ok (js "1 hour")
           | None => Ok (js "1 hour")
           end) (fun defaultExpiration =>
        Ok {| plugin_name := js "plugin." ++ name;
              decorator := name;
              secretKey := secretKey;
              configured_exp := exp;
              defaultExpiration := defaultExpiration |}))
  end.

(* ===================================================================== *)
(** ** The codec boundary and the effects of [sign] and [verify] *)
(* ===================================================================== *)

(** The options [sign] hands to [encrypt], and [verify] to [decrypt]. *)
Record EncryptOptions : Type := {
  addIat : bool;
  addExp : bool;
  validatePayload : bool
}.

Record DecryptOptions : Type := {
  decrypt_validatePayload : bool
}.

(** What [decrypt] returns. *)
Record Decrypted : Type := {
  payload : PasetoPayload;
  footer : jsstring
}.

(** [verify] resolves to [false | PasetoPayload]. *)
Inductive verified : Type :=
  | VFalse
  | VPayload (claims : PasetoPayload).

(** What a run does that can be seen from outside it. *)
Inductive event : Type :=
  | call_encrypt (key : jsstring) (claims : PasetoPayload)
                 (options : EncryptOptions)
  | call_decrypt (key token : jsstring) (options : DecryptOptions)
  | console_warn (message : jsstring)
  | console_error (message : jsstring) (e : error).

Definition is_call_decrypt (ev : event) : bool :=
  match ev with call_decrypt _ _ _ => true | _ => false end.

Section Codec.

(** Whatever the codec reads and changes: the clock, the source of
    nonces. *)
Variable World : Type.

(** [encrypt] and [decrypt] of paseto-ts/v4: they return or throw, and
    may depend on and change the world. *)
Variable encrypt :
  jsstring -> PasetoPayload -> EncryptOptions -> World ->
  result jsstring * World.
Variable decrypt :
  jsstring -> jsstring -> DecryptOptions -> World ->
  result Decrypted * World.

Record state : Type := {
  world : World;
  trace : list event
}.

(** State and exceptions. *)
Definition M (A : Type) : Type := state -> result A * state.

Definition ret {A} (a : A) : M A := fun st => (Ok a, st).

Definition bind {A B} (m : M A) (k : A -> M B) : M B :=
  fun st =>
    match m st with
    | (Ok a, st') => k a st'
    | (Throw e, st') => (Throw e, st')
    end.

(** [try { m } catch (error) { h error }] *)
Definition try_catch {A} (m : M A) (h : error -> M A) : M A :=
  fun st =>
    match m st with
    | (Ok a, st') => (Ok a, st')
    | (Throw e, st') => h e st'
    end.

Definition emit (ev : event) : M unit :=
  fun st => (Ok tt, {| world := world st; trace := trace st ++ [ev] |}).

Definition do_encrypt (key : jsstring) (claims : PasetoPayload)
           (options : EncryptOptions) : M jsstring :=
  fun st =>
    let (r, w) := encrypt key claims options (world st) in
    (r, {| world := w;
           trace := trace st ++ [call_encrypt key claims options] |}).

Definition do_decrypt (key token : jsstring) (options : DecryptOptions)
  : M Decrypted :=
  fun st =>
    let (r, w) := decrypt key token options (world st) in
    (r, {| world := w;
           trace := trace st ++ [call_decrypt key token options] |}).

Notation "x <- m ;; k" := (bind m (fun x => k))
  (at level 100, m at next level, right associativity).
Notation "m ;;; k" := (bind m (fun _ => k))
  (at level 100, right associativity).

(** The claims [sign] hands to [encrypt] (lines 119-125): the copy, with
    the default duration when the copy has no truthy [exp] and the option
    [exp] is truthy. *)
Definition tokenPayload (p : Plugin) (payload : PayloadObject)
  : PasetoPayload :=
  let tokenPayload := spread payload in
  if negb (truthy (get_exp tokenPayload)) && truthy_exp (configured_exp p)
  then <[js "exp" := JStr (defaultExpiration p)]> tokenPayload
  else tokenPayload.

(** The options [sign] hands to [encrypt] (lines 130-132); [addExp] is
    read off the caller's object, not off the copy. *)
Definition sign_options (payload : PayloadObject) : EncryptOptions :=
  {| addIat := true;
     addExp := negb (truthy (read_exp payload));
     validatePayload := true |}.

Definition sign (p : Plugin) (payload : PayloadObject) : M jsstring :=
  do_encrypt (secretKey p) (tokenPayload p payload) (sign_options payload).

Definition verify (p : Plugin) (token : option jsstring) : M verified :=
  match token with
  | None => ret VFalse
  | Some token =>
      if negb (truthy_string token) then ret VFalse
      else if negb (startsWith token (js "v4.local.")) then
        emit (console_warn (js "Invalid PASETO token format")) ;;;
        ret VFalse
      else
        try_catch
          (result <- do_decrypt (secretKey p) token {| decrypt_validatePayload := true |} ;;
           ret (VPayload (payload result)))
          (fun error =>
             emit (console_error (js "PASETO verification failed:") error) ;;;
             ret VFalse)
  end.

End Codec.

Arguments world {World} _.
Arguments trace {World} _.

(* ===================================================================== *)
(** ** A stand-in codec for concrete runs *)
(* ===================================================================== *)

(** The real codec is outside this repository.  For runs on concrete
    inputs the development uses an ideal one: a token is a serial number
    behind the version prefix, and the world remembers the key and the
    claims every token was issued for.  It accepts only well-formed keys,
    and adds [iat] and, when asked to, a one-hour [exp], each only where
    the claims have none. *)
Module TestCodec.

Record issued : Type := {
  issued_key : jsstring;
  issued_token : jsstring;
  issued_claims : PasetoPayload
}.

Record World : Type := {
  now : Z;
  serial : Z;
  tokens : list issued
}.

Definition well_formed_key (key : jsstring) : bool :=
  startsWith key paserk_prefix && (length key =? 52)%nat.

Definition stamp (options : EncryptOptions) (w : World)
           (claims : PasetoPayload) : PasetoPayload :=
  let claims :=
    if addIat options && negb (bool_decide (is_Some (claims !! js "iat")))
    then <[js "iat" := JNum (now w)]> claims else claims in
  if addExp options && negb (bool_decide (is_Some (claims !! js "exp")))
  then <[js "exp" := JStr (js "1 hour")]> claims else claims.

Definition encrypt (key : jsstring) (claims : PasetoPayload)
           (options : EncryptOptions) (w : World)
  : result jsstring * World :=
  if well_formed_key key then
    let token := js "v4.local." ++ Number_toString (serial w) in
    (Ok token,
     {| now := now w;
        serial := serial w + 1;
        tokens := {| issued_key := key; issued_token := token;
                     issued_claims := stamp options w claims |}
                  :: tokens w |})
  else (Throw (Error (js "invalid key")), w).

Fixpoint find_token (key token : jsstring) (l : list issued)
  : option PasetoPayload :=
  match l with
  | [] => None
  | i :: l' =>
      if bool_decide (issued_key i = key) &&
         bool_decide (issued_token i = token)
      then Some (issued_claims i)
      else find_token key token l'
  end.

Definition decrypt (key token : jsstring) (options : DecryptOptions)
           (w : World) : result Decrypted * World :=
  match find_token key token (tokens w) with
  | Some claims => (Ok {| payload := claims; footer := [] |}, w)
  | None => (Throw (Error (js "decryption failed")), w)
  end.

Definition start : state World :=
  {| world := {| now := 1700000000; serial := 0; tokens := [] |};
     trace := [] |}.

End TestCodec.

(** The secret of the repository's tests. *)
Definition testSecret : jsstring := js "test-secret-key-32-bytes-long!".

Definition test_options (exp : option exp_option) : PasetoOptions :=
  {| name := Some (js "paseto"); secret := Some testSecret; exp := exp |}.

(** Two pairs of secrets that differ and are cut to the same 32 bytes. *)
Definition long_secret : jsstring := js "0123456789abcdef0123456789abcdef-and-more".
Definition long_secret_cut : jsstring := js "0123456789abcdef0123456789abcdef".
Definition short_secret : jsstring := js "abc".
Definition short_secret_nul : jsstring := js "abc" ++ [0; 0].

(** Claims of the repository's tests. *)
Definition user_claims : PasetoPayload :=
  {[ js "id" := JStr (js "user123") ]}.

Definition claims_with_exp (T : jsval) : PasetoPayload :=
  <[js "exp" := T]> user_claims.

Definition customExp : jsstring := js "2030-01-01T00:00:00.000Z".

(** A caller's object whose [exp] is not its own enumerable property: it
    is read by [payload.exp] and left behind by the spread. *)
Definition claims_inheriting_exp (T : jsval) : PayloadObject :=
  {| own_enumerable := user_claims;
     not_enumerated := {[ js "exp" := T ]} |}.

(** The plugin the tests build: [testSecret] and an optional [exp]. *)
Definition test_plugin (exp : option exp_option) (dflt : jsstring) : Plugin :=
  {| plugin_name := js "plugin.paseto";
     decorator := js "paseto";
     secretKey := js "k4.local.dGVzdC1zZWNyZXQta2V5LTMyLWJ5dGVzLWxvbmchAAA";
     configured_exp := exp;
     defaultExpiration := dflt |}.

(* ===================================================================== *)
(** ** The specification's vocabulary *)
(* ===================================================================== *)

(** The specification's wording of the cut: pad on the right with zero
    bytes, or truncate, to exactly [n] bytes. *)
Definition pad_or_truncate (n : nat) (bytes : list byte) : list byte :=
  take n (bytes ++ replicate n x00).

(** The invariant of a [SymmetricKey]: the canonical prefix followed by the
    base64url text of exactly 32 bytes. *)
Definition is_k4_local_key (key : jsstring) : Prop :=
  exists kb : list byte,
    length kb = 32%nat /\ key = paserk_prefix ++ base64url kb.

(** The pattern of a duration expression, in the specification's words:
    digits immediately followed by exactly one of the letters s, m, h, d,
    w. *)
Definition duration_pattern (s digits : jsstring) (letter : code_unit) : Prop :=
  s = digits ++ [letter] /\
  digits <> [] /\
  Forall (fun c => 48 <= c <= 57) digits /\
  In letter (js "smhdw").

(** The specification's unit table. *)
Definition unit_name (letter : code_unit) : jsstring :=
  if letter =? 115 then js "seconds"
  else if letter =? 109 then js "minutes"
  else if letter =? 104 then js "hours"
  else if letter =? 100 then js "days"
  else js "weeks".

(** The value [verify] resolves to, read off the token and the answer of
    the codec: the claims when the token is there, has the version prefix
    and the codec returns; [false] in every other case. *)
Definition verify_value {World : Type}
  (decrypt : jsstring -> jsstring -> DecryptOptions -> World ->
             result Decrypted * World)
  (p : Plugin) (token : option jsstring) (w : World) : verified :=
  match token with
  | None => VFalse
  | Some t =>
      if truthy_string t && startsWith t (js "v4.local.") then
        match fst (decrypt (secretKey p) t
                           {| decrypt_validatePayload := true |} w) with
        | Ok r => VPayload (payload r)
        | Throw _ => VFalse
        end
      else VFalse
  end.

(** The events of a run: what the trace gained. *)
Definition no_call_decrypt (events : list event) : Prop :=
  Forall (fun ev => is_call_decrypt ev = false) events.

(** The units a number of seconds can be told in, with their length in
    seconds and the text the parser writes for them. *)
Definition numeric_units : list (Z * jsstring) :=
  [ (86400%Z, js " days");
    (3600%Z, js " hours");
    (60%Z, js " minutes");
    (1%Z, js " seconds") ].

(** An ASCII string: every code unit below 128. *)
Definition ascii_string (s : jsstring) : Prop := Forall (fun c => c < 128) s.

(** An ASCII string without the NUL character. *)
Definition ascii_no_nul (s : jsstring) : Prop :=
  Forall (fun c => 0 < c < 128) s.


(* ===================================================================== *)
(** ** Reading a key back *)
(* ===================================================================== *)

(** The place of a code unit in the base64url alphabet. *)
Fixpoint index_from (i : N) (c : code_unit) (alphabet : jsstring) : option N :=
  match alphabet with
  | [] => None
  | d :: alphabet' =>
      if c =? d then Some i else index_from (i + 1) c alphabet'
  end.

Definition base64url_index (c : code_unit) : option N :=
  index_from 0 c base64url_alphabet.

(** The inverse of [base64url]: the bytes a text stands for, if it is the
    unpadded base64url text of some bytes. *)
Fixpoint base64url_decode (s : jsstring) : option (list byte) :=
  match s with
  | [] => Some []
  | [_] => None
  | [c1; c2] =>
      match base64url_index c1, base64url_index c2 with
      | Some s1, Some s2 => Some [byte_of_N (s1 * 4 + s2 / 16)]
      | _, _ => None
      end
  | [c1; c2; c3] =>
      match base64url_index c1, base64url_index c2, base64url_index c3 with
      | Some s1, Some s2, Some s3 =>
          Some [byte_of_N (s1 * 4 + s2 / 16);
                byte_of_N ((s2 mod 16) * 16 + s3 / 4)]
      | _, _, _ => None
      end
  | c1 :: c2 :: c3 :: c4 :: rest =>
      match base64url_index c1, base64url_index c2,
            base64url_index c3, base64url_index c4,
            base64url_decode rest with
      | Some s1, Some s2, Some s3, Some s4, Some bs =>
          Some (byte_of_N (s1 * 4 + s2 / 16)
                :: byte_of_N ((s2 mod 16) * 16 + s3 / 4)
                :: byte_of_N ((s3 mod 4) * 64 + s4)
                :: bs)
      | _, _, _, _, _ => None
      end
  end.

(** The numbers below [n], for checking a property of small numbers by
    running through them. *)
Definition below (n : nat) : list N := map N.of_nat (seq 0 n).

(** The sextet arithmetic of one group of three bytes, as one check on the
    values of two neighbouring bytes. *)
Definition sextets_check (va vb : N) : bool :=
  let s1 := N.shiftr va 2 in
  let s2 := N.lor (N.shiftl (N.land va 3) 4) (N.shiftr vb 4) in
  let s3 := N.lor (N.shiftl (N.land va 15) 2) (N.shiftr vb 6) in
  let s4 := N.land vb 63 in
  let t2 := N.shiftl (N.land va 3) 4 in
  let t3 := N.shiftl (N.land va 15) 2 in
  (s1 <? 64) && (s2 <? 64) && (s3 <? 64) && (s4 <? 64) &&
  (t2 <? 64) && (t3 <? 64) &&
  (s1 * 4 + s2 / 16 =? va) && (s1 * 4 + t2 / 16 =? va) &&
  ((s2 mod 16) * 16 =? N.shiftr vb 4 * 16) &&
  (s3 / 4 =? N.land va 15) && (t3 / 4 =? N.land va 15) &&
  (N.shiftr va 4 * 16 + N.land va 15 =? va) &&
  ((s3 mod 4) * 64 + s4 =? vb).

(* ===================================================================== *)
(** ** Concrete runs *)
(* ===================================================================== *)

Example prepareSecret_short :
  prepareSecret (js "abc") =
  Ok (js "k4.local.YWJjAAAAAAAAAAAAAAAAAAAAAAAAAAAAAAAAAAAAAAA").
Proof. vm_compute. reflexivity. Qed.

Example convertExpiration_7d :
  convertExpiration (ExpString (js "7d")) = Ok (js "7 days").
Proof. vm_compute. reflexivity. Qed.

Example convertExpiration_24h :
  convertExpiration (ExpString (js "24h")) = Ok (js "24 hours").
Proof. vm_compute. reflexivity. Qed.

Example convertExpiration_300 :
  convertExpiration (ExpNumber 300) = Ok (js "5 minutes").
Proof. vm_compute. reflexivity. Qed.

Example convertExpiration_3x :
  convertExpiration (ExpString (js "3x")) =
  Throw (Error (js "Invalid expiration format: 3x")).
Proof. vm_compute. reflexivity. Qed.

Example paseto_testSecret_1h :
  paseto (Some (test_options (Some (ExpString (js "1h"))))) =
  Ok {| plugin_name := js "plugin.paseto";
        decorator := js "paseto";
        secretKey := js "k4.local.dGVzdC1zZWNyZXQta2V5LTMyLWJ5dGVzLWxvbmchAAA";
        configured_exp := Some (ExpString (js "1h"));
        defaultExpiration := js "1 hours" |}.
Proof. vm_compute. reflexivity. Qed.

Example encode_two_bytes :
  TextEncoder_encode [0xE9] = [xc3; xa9].
Proof. vm_compute. reflexivity. Qed.

Example encode_three_bytes :
  TextEncoder_encode [0x20AC] = [xe2; x82; xac].
Proof. vm_compute. reflexivity. Qed.

Example encode_surrogate_pair :
  TextEncoder_encode [0xD83D; 0xDE80] = [xf0; x9f; x9a; x80].
Proof. vm_compute. reflexivity. Qed.

Example encode_lone_surrogate :
  TextEncoder_encode [0xD83D; 0x41] = [xef; xbf; xbd; x41].
Proof. vm_compute. reflexivity. Qed.

(** Twenty times U+00E9 is forty bytes; the key keeps the first 32. *)
Example prepareSecret_long :
  prepareSecret (replicate 20 0xE9) =
  Ok (js "k4.local.w6nDqcOpw6nDqcOpw6nDqcOpw6nDqcOpw6nDqcOpw6k").
Proof. vm_compute. reflexivity. Qed.

Example prepareSecret_paserk :
  prepareSecret (js "k4.local.anything") = Ok (js "k4.local.anything").
Proof. vm_compute. reflexivity. Qed.

Example convertExpiration_604800 :
  convertExpiration (ExpNumber 604800) = Ok (js "7 days").
Proof. vm_compute. reflexivity. Qed.

Example convertExpiration_90 :
  convertExpiration (ExpNumber 90) = Ok (js "90 seconds").
Proof. vm_compute. reflexivity. Qed.

Example convertExpiration_minus_86400 :
  convertExpiration (ExpNumber (-86400)) = Ok (js "-1 days").
Proof. vm_compute. reflexivity. Qed.

Example convertExpiration_leading_zeros :
  convertExpiration (ExpString (js "007d")) = Ok (js "007 days").
Proof. vm_compute. reflexivity. Qed.

Example convertExpiration_no_digits :
  convertExpiration (ExpString (js "d")) =
  Throw (InvalidDurationFormat (js "d")).
Proof. vm_compute. reflexivity. Qed.

Example paseto_no_secret :
  paseto (Some {| name := Some (js "paseto"); secret := None;
                  exp := None |}) = Throw MissingSecret.
Proof. reflexivity. Qed.

Example paseto_no_options : paseto None = Throw MissingSecret.
Proof. reflexivity. Qed.

(* ===================================================================== *)
(** ** Key normaliser: properties *)
(* ===================================================================== *)

Lemma Uint8Array_set_short (bytes : list byte) (n : nat) :
  (length bytes <= n)%nat ->
  Uint8Array_set (Uint8Array_new n) bytes =
  Ok (bytes ++ replicate (n - length bytes) x00).
Proof.
  intros Hle. unfold Uint8Array_set, Uint8Array_new.
  rewrite length_replicate.
  destruct (Nat.leb_spec (length bytes) n) as [_|Hgt]; [|lia].
  by rewrite drop_replicate.
Qed.

Lemma pad_or_truncate_short (bytes : list byte) (n : nat) :
  (length bytes <= n)%nat ->
  pad_or_truncate n bytes = bytes ++ replicate (n - length bytes) x00.
Proof.
  intros Hle. unfold pad_or_truncate.
  rewrite take_app_ge by lia. by rewrite take_replicate, Nat.min_l by lia.
Qed.

Lemma pad_or_truncate_long (bytes : list byte) (n : nat) :
  (n <= length bytes)%nat -> pad_or_truncate n bytes = take n bytes.
Proof. intros Hle. unfold pad_or_truncate. by rewrite take_app_le. Qed.

Lemma pad_or_truncate_length (bytes : list byte) (n : nat) :
  length (pad_or_truncate n bytes) = n.
Proof.
  unfold pad_or_truncate.
  rewrite length_take, length_app, length_replicate. lia.
Qed.

(** [keyBytes] never throws, and is the specification's cut at 32. *)
Lemma keyBytes_pad_or_truncate (secret : jsstring) :
  keyBytes secret = Ok (pad_or_truncate 32 (TextEncoder_encode secret)).
Proof.
  unfold keyBytes. cbv zeta.
  destruct (Nat.ltb_spec (length (TextEncoder_encode secret)) 32) as [Hlt|Hge].
  - rewrite Uint8Array_set_short, pad_or_truncate_short by lia. done.
  - destruct (Nat.ltb_spec 32 (length (TextEncoder_encode secret)))
      as [Hgt|Hle].
    + unfold slice0. by rewrite pad_or_truncate_long by lia.
    + rewrite pad_or_truncate_long by lia.
      by rewrite take_ge by lia.
Qed.

Lemma prepareSecret_derived (secret : jsstring) :
  startsWith secret paserk_prefix = false ->
  prepareSecret secret =
  Ok (paserk_prefix ++
      base64url (pad_or_truncate 32 (TextEncoder_encode secret))).
Proof.
  intros Hpre. unfold prepareSecret.
  by rewrite Hpre, keyBytes_pad_or_truncate.
Qed.

Lemma prepareSecret_passthrough (secret : jsstring) :
  startsWith secret paserk_prefix = true -> prepareSecret secret = Ok secret.
Proof. intros Hpre. unfold prepareSecret. by rewrite Hpre. Qed.

(** Three bytes at a time. *)
Lemma list_ind3 {A} (P : list A -> Prop) :
  P [] -> (forall a, P [a]) -> (forall a b, P [a; b]) ->
  (forall a b c l, P l -> P (a :: b :: c :: l)) ->
  forall l, P l.
Proof.
  intros H0 H1 H2 H3.
  cut (forall l, P l /\ (forall a, P (a :: l)) /\ (forall a b, P (a :: b :: l))).
  { intros H l. apply H. }
  induction l as [|x l (IH0 & IH1 & IH2)]; auto.
Qed.

Lemma base64url_length (bs : list byte) :
  length (base64url bs) = ((4 * length bs + 2) / 3)%nat.
Proof.
  induction bs as [| a | a b | a b c l IH] using list_ind3; try reflexivity.
  change (base64url (a :: b :: c :: l))
    with ([base64url_char (N.shiftr (Byte.to_N a) 2);
           base64url_char (N.lor (N.shiftl (N.land (Byte.to_N a) 3) 4)
                                 (N.shiftr (Byte.to_N b) 4));
           base64url_char (N.lor (N.shiftl (N.land (Byte.to_N b) 15) 2)
                                 (N.shiftr (Byte.to_N c) 6));
           base64url_char (N.land (Byte.to_N c) 63)] ++ base64url l).
  rewrite length_app, IH. cbn [length].
  replace (4 * S (S (S (length l))) + 2)%nat
    with ((4 * length l + 2) + 4 * 3)%nat by lia.
  rewrite Nat.div_add by lia. lia.
Qed.

Lemma is_k4_local_key_length (key : jsstring) :
  is_k4_local_key key -> length key = 52%nat.
Proof.
  intros (kb & Hlen & ->).
  rewrite length_app, base64url_length, Hlen. reflexivity.
Qed.

(* ===================================================================== *)
(** ** Key normaliser: the claims *)
(* ===================================================================== *)

(** Construction reaches the duration parser only after the key is made,
    and the key is made for every non-empty secret. *)
Lemma prepareSecret_total (secret : jsstring) :
  exists key, prepareSecret secret = Ok key.
Proof.
  destruct (startsWith secret paserk_prefix) eqn:Hpre.
  - exists secret. by apply prepareSecret_passthrough.
  - eexists. by apply prepareSecret_derived.
Qed.

Lemma paseto_secretKey (options : option PasetoOptions) (p : Plugin) :
  paseto options = Ok p ->
  exists s, options ≫= secret = Some s /\ truthy_string s = true /\
            prepareSecret s = Ok (secretKey p).
Proof.
  unfold paseto. intros H.
  destruct (options ≫= secret) as [s|]; [|discriminate].
  destruct (truthy_string s) eqn:Hs; [|discriminate]. cbn [negb] in H.
  destruct (prepareSecret s) as [key|e] eqn:Hkey; [|discriminate].
  cbn [result_bind] in H.
  match type of H with
  | result_bind ?d _ = _ => destruct d as [dflt|e]; [|discriminate]
  end.
  cbn [result_bind] in H. injection H as <-. by exists s.
Qed.

(** C7.  For a secret that does not begin with "k4.local.", the key is the
    prefix followed by the base64url text of 32 bytes cut from the UTF-8
    bytes of the secret: the bytes followed by zero bytes up to 32 when
    there are fewer than 32, the first 32 when there are more, the bytes
    themselves when there are exactly 32.  Equal secrets give equal keys. *)
Theorem prepareSecret_pads_or_truncates (secret : jsstring) :
  startsWith secret paserk_prefix = false ->
  let bytes := TextEncoder_encode secret in
  exists kb : list byte,
    keyBytes secret = Ok kb /\
    prepareSecret secret = Ok (paserk_prefix ++ base64url kb) /\
    length kb = 32%nat /\
    ((length bytes < 32)%nat ->
       kb = bytes ++ replicate (32 - length bytes) x00) /\
    ((32 < length bytes)%nat -> kb = take 32 bytes) /\
    (length bytes = 32%nat -> kb = bytes) /\
    (forall secret' : jsstring,
       secret' = secret -> prepareSecret secret' = prepareSecret secret).
Proof.
  intros Hpre bytes.
  exists (pad_or_truncate 32 bytes). subst bytes.
  split; [apply keyBytes_pad_or_truncate|].
  split; [by apply prepareSecret_derived|].
  split; [apply pad_or_truncate_length|].
  repeat split.
  - intros Hlt. apply pad_or_truncate_short. lia.
  - intros Hgt. apply pad_or_truncate_long. lia.
  - intros Heq. rewrite pad_or_truncate_long by lia. apply take_ge. lia.
  - by intros secret' ->.
Qed.

Lemma prepareSecret_pads_or_truncates_witness :
  startsWith testSecret paserk_prefix = false /\
  exists kb : list byte,
    keyBytes testSecret = Ok kb /\
    prepareSecret testSecret = Ok (paserk_prefix ++ base64url kb) /\
    length kb = 32%nat /\
    ((length (TextEncoder_encode testSecret) < 32)%nat ->
       kb = TextEncoder_encode testSecret ++
            replicate (32 - length (TextEncoder_encode testSecret)) x00) /\
    ((32 < length (TextEncoder_encode testSecret))%nat ->
       kb = take 32 (TextEncoder_encode testSecret)) /\
    (length (TextEncoder_encode testSecret) = 32%nat ->
       kb = TextEncoder_encode testSecret) /\
    (forall secret' : jsstring,
       secret' = testSecret ->
       prepareSecret secret' = prepareSecret testSecret).
Proof.
  split; [reflexivity|].
  apply (prepareSecret_pads_or_truncates testSecret). reflexivity.
Defined.

(** C3, as stated, fails on the passthrough branch: a secret that begins
    with "k4.local." is accepted at construction and becomes the key as it
    is, whatever follows the prefix.  Here nothing follows it. *)
Lemma passthrough_key_not_32_bytes :
  exists p : Plugin,
    paseto (Some {| name := None; secret := Some (js "k4.local.");
                    exp := None |}) = Ok p /\
    secretKey p = js "k4.local." /\
    ~ is_k4_local_key (secretKey p).
Proof.
  eexists. split; [vm_compute; reflexivity|].
  split; [reflexivity|].
  intros Hkey. apply is_k4_local_key_length in Hkey.
  vm_compute in Hkey. discriminate.
Qed.

(** C3, amended.  Every configuration accepted at construction has a
    non-empty secret.  When the secret does not begin with "k4.local." the
    key is the prefix followed by the base64url text of exactly 32 bytes;
    when it does, the key is the secret itself, unchanged and unchecked. *)
Theorem secretKey_32_bytes_unless_passthrough
        (options : option PasetoOptions) (p : Plugin) :
  paseto options = Ok p ->
  exists s : jsstring,
    options ≫= secret = Some s /\ truthy_string s = true /\
    (startsWith s paserk_prefix = false -> is_k4_local_key (secretKey p)) /\
    (startsWith s paserk_prefix = true -> secretKey p = s).
Proof.
  intros (s & Hs & Hne & Hkey)%paseto_secretKey.
  exists s. repeat split; try done.
  - intros Hpre. rewrite prepareSecret_derived in Hkey by done.
    injection Hkey as <-. eexists. split; [|reflexivity].
    apply pad_or_truncate_length.
  - intros Hpre. rewrite prepareSecret_passthrough in Hkey by done.
    by injection Hkey as <-.
Qed.

Lemma secretKey_32_bytes_unless_passthrough_witness :
  exists p : Plugin,
    paseto (Some (test_options None)) = Ok p /\
    exists s : jsstring,
      Some (test_options None) ≫= secret = Some s /\
      truthy_string s = true /\
      (startsWith s paserk_prefix = false -> is_k4_local_key (secretKey p)) /\
      (startsWith s paserk_prefix = true -> secretKey p = s).
Proof.
  eexists. split; [vm_compute; reflexivity|].
  apply (secretKey_32_bytes_unless_passthrough (Some (test_options None))).
  vm_compute. reflexivity.
Defined.

(** C10.  Key normalisation is not injective.  Two secrets outside the
    passthrough branch whose UTF-8 bytes are equal after the cut to 32
    bytes get the same key; there are distinct such secrets; and two
    plugins built from such secrets verify every token alike, so a token
    signed under the one is accepted under the other. *)
Theorem prepareSecret_not_injective :
  (exists s1 s2 : jsstring,
      s1 <> s2 /\
      startsWith s1 paserk_prefix = false /\
      startsWith s2 paserk_prefix = false /\
      prepareSecret s1 = prepareSecret s2) /\
  (forall s1 s2 : jsstring,
      startsWith s1 paserk_prefix = false ->
      startsWith s2 paserk_prefix = false ->
      pad_or_truncate 32 (TextEncoder_encode s1) =
      pad_or_truncate 32 (TextEncoder_encode s2) ->
      prepareSecret s1 = prepareSecret s2 /\
      forall (o1 o2 : option PasetoOptions) (p1 p2 : Plugin),
        o1 ≫= secret = Some s1 -> o2 ≫= secret = Some s2 ->
        paseto o1 = Ok p1 -> paseto o2 = Ok p2 ->
        secretKey p1 = secretKey p2 /\
        forall World encrypt decrypt payload token
               (st st1 st2 : state World) (claims : PasetoPayload),
          sign World encrypt p1 payload st = (Ok token, st1) ->
          verify World decrypt p1 (Some token) st1 = (Ok (VPayload claims), st2) ->
          verify World decrypt p2 (Some token) st1 = (Ok (VPayload claims), st2)).
Proof.
  assert (Hgen : forall s1 s2 : jsstring,
      startsWith s1 paserk_prefix = false ->
      startsWith s2 paserk_prefix = false ->
      pad_or_truncate 32 (TextEncoder_encode s1) =
      pad_or_truncate 32 (TextEncoder_encode s2) ->
      prepareSecret s1 = prepareSecret s2).
  { intros s1 s2 H1 H2 Hcut.
    by rewrite !prepareSecret_derived, Hcut by done. }
  split.
  - exists long_secret, long_secret_cut.
    split; [discriminate|]. split; [reflexivity|]. split; [reflexivity|].
    apply Hgen; vm_compute; reflexivity.
  - intros s1 s2 H1 H2 Hcut. split; [by apply Hgen|].
    intros o1 o2 p1 p2 Ho1 Ho2 Hp1 Hp2.
    apply paseto_secretKey in Hp1 as (s1' & Hs1 & _ & Hk1).
    apply paseto_secretKey in Hp2 as (s2' & Hs2 & _ & Hk2).
    assert (s1' = s1) as -> by congruence.
    assert (s2' = s2) as -> by congruence.
    assert (Hkey : secretKey p1 = secretKey p2).
    { rewrite (Hgen s1 s2) in Hk1 by done. congruence. }
    split; [done|].
    intros World encrypt decrypt payload token st st1 st2 claims _ Hv.
    unfold verify in *. by rewrite <- Hkey.
Qed.

Lemma prepareSecret_not_injective_witness :
  short_secret <> short_secret_nul /\
  startsWith short_secret paserk_prefix = false /\
  startsWith short_secret_nul paserk_prefix = false /\
  pad_or_truncate 32 (TextEncoder_encode short_secret) =
  pad_or_truncate 32 (TextEncoder_encode short_secret_nul) /\
  prepareSecret short_secret = prepareSecret short_secret_nul.
Proof.
  split; [discriminate|].
  split; [reflexivity|]. split; [reflexivity|].
  split; [vm_compute; reflexivity|].
  apply (proj2 prepareSecret_not_injective short_secret short_secret_nul);
    vm_compute; reflexivity.
Defined.

(* ===================================================================== *)
(** ** Duration parser: the claims *)
(* ===================================================================== *)

Lemma is_digit_spec (c : code_unit) : is_digit c = true <-> 48 <= c <= 57.
Proof. unfold is_digit. rewrite andb_true_iff, !N.leb_le. tauto. Qed.

Lemma is_unit_letter_spec (c : code_unit) :
  is_unit_letter c = true <-> In c (js "smhdw").
Proof.
  unfold is_unit_letter. rewrite existsb_exists. split.
  - intros (x & Hin & ->%N.eqb_eq). done.
  - intros Hin. exists c. by rewrite N.eqb_refl.
Qed.

Lemma unit_letter_not_digit (c : code_unit) :
  In c (js "smhdw") -> is_digit c = false.
Proof.
  cbn. intros [<-|[<-|[<-|[<-|[<-|[]]]]]]; reflexivity.
Qed.

Lemma lookup_unit_letter (c : code_unit) :
  In c (js "smhdw") -> lookup_unit units [c] = Some (unit_name c).
Proof.
  cbn. intros [<-|[<-|[<-|[<-|[<-|[]]]]]]; reflexivity.
Qed.

(** What the tail of the regular expression accepts. *)
Lemma match_digits_then_unit_spec (s value unit : jsstring) :
  match_digits_then_unit s = Some (value, unit) <->
  exists letter : code_unit,
    unit = [letter] /\ s = value ++ [letter] /\
    Forall (fun c => 48 <= c <= 57) value /\ In letter (js "smhdw").
Proof.
  revert value. induction s as [|c s IH]; intros value;
    cbn [match_digits_then_unit].
  - split; [discriminate|].
    intros (l & _ & Hs & _). by destruct value.
  - destruct (is_digit c) eqn:Hd.
    + destruct (match_digits_then_unit s) as [[v u]|] eqn:Hm.
      * split.
        -- intros [= <- <-].
           destruct (proj1 (IH v) eq_refl) as (l & -> & -> & Hv & Hl).
           exists l. repeat split; try done.
           constructor; [by apply is_digit_spec|done].
        -- intros (l & -> & Hs & Hv & Hl).
           destruct value as [|c' value'].
           ++ injection Hs as -> ->.
              rewrite unit_letter_not_digit in Hd by done. discriminate.
           ++ injection Hs as <- ->. inversion_clear Hv as [|? ? _ Hv'].
              assert (Some (v, u) = Some (value', [l])) as [= -> ->]; [|done].
              apply IH. by exists l.
      * split; [discriminate|].
        intros (l & -> & Hs & Hv & Hl).
        destruct value as [|c' value'].
        -- injection Hs as -> ->.
           rewrite unit_letter_not_digit in Hd by done. discriminate.
        -- injection Hs as <- ->. inversion_clear Hv as [|? ? _ Hv'].
           assert (None = Some (value', [l])) as [=].
           apply IH. by exists l.
    + destruct (is_unit_letter c) eqn:Hu.
      * destruct s as [|d s].
        -- split.
           ++ intros H. inversion H; subst. exists c. repeat split; try done.
              by apply is_unit_letter_spec.
           ++ intros (l & -> & Hs & Hv & Hl).
              destruct value as [|c' [|? ?]]; try discriminate.
              by injection Hs as ->.
        -- split; [discriminate|].
           intros (l & -> & Hs & Hv & Hl).
           destruct value as [|c' value']; [by destruct s|].
           injection Hs as <- _. inversion_clear Hv as [|? ? Hc _].
           apply is_digit_spec in Hc. congruence.
      * split; [discriminate|].
        intros (l & -> & Hs & Hv & Hl).
        destruct value as [|c' value'].
        -- injection Hs as -> ->.
           apply is_unit_letter_spec in Hl. congruence.
        -- injection Hs as <- _. inversion_clear Hv as [|? ? Hc _].
           apply is_digit_spec in Hc. congruence.
Qed.

(** The regular expression accepts exactly the specification's pattern,
    and its groups are the digits and the letter. *)
Lemma match_expiration_spec (s value unit : jsstring) :
  match_expiration s = Some (value, unit) <->
  exists letter : code_unit,
    unit = [letter] /\ duration_pattern s value letter.
Proof.
  unfold match_expiration, duration_pattern. destruct s as [|c s].
  - split; [discriminate|]. intros (l & _ & Hs & _). by destruct value.
  - destruct (is_digit c) eqn:Hd.
    + destruct (match_digits_then_unit s) as [[v u]|] eqn:Hm.
      * apply match_digits_then_unit_spec in Hm as (l & -> & -> & Hv & Hl).
        split.
        -- intros [= <- <-]. exists l. repeat split; try done.
           constructor; [by apply is_digit_spec|done].
        -- intros (l' & -> & Hs & Hne & Hv' & Hl').
           destruct value as [|c' value']; [done|].
           injection Hs as <- Hs.
           apply app_inj_tail in Hs as [<- <-]. done.
      * split; [discriminate|].
        intros (l & -> & Hs & Hne & Hv & Hl).
        destruct value as [|c' value']; [done|].
        injection Hs as <- ->. inversion_clear Hv as [|? ? _ Hv'].
        assert (None = Some (value', [l])) as [=].
        rewrite <- Hm. apply match_digits_then_unit_spec. by exists l.
    + split; [discriminate|].
      intros (l & -> & Hs & Hne & Hv & Hl).
      destruct value as [|c' value']; [done|].
      injection Hs as <- _. inversion_clear Hv as [|? ? Hc _].
      apply is_digit_spec in Hc. congruence.
Qed.

(** Construction, once the secret is there: the key is made, then the
    default duration. *)
Lemma paseto_with_secret (options : PasetoOptions) (s : jsstring) :
  secret options = Some s -> truthy_string s = true ->
  exists key : jsstring,
    prepareSecret s = Ok key /\
    paseto (Some options) =
    result_bind
      (match exp options with
       | Some e => if truthy_exp (exp options) then convertExpiration e
                   else Ok (js "1 hour")
       | None => Ok (js "1 hour")
       end)
      (fun d =>
         Ok {| plugin_name := js "plugin." ++ or_else (name options) (js "paseto");
               decorator := or_else (name options) (js "paseto");
               secretKey := key;
               configured_exp := exp options;
               defaultExpiration := d |}).
Proof.
  intros Hs Hne. destruct (prepareSecret_total s) as [key Hkey].
  exists key. split; [done|].
  unfold paseto. cbn [mbind option_bind]. by rewrite Hs, Hne, Hkey.
Qed.

(** A unit of [numeric_units] is one of four; the goal is a bound on its
    size, shown at once or refuted by the hypotheses at hand. *)
Ltac units_le Hin :=
  cbn in Hin;
  destruct Hin as [Hin|[Hin|[Hin|[Hin|[]]]]];
  injection Hin as <- <-; try lia.

(** C8.  For a number of seconds [n >= 0] the parser tries days, then
    hours, then minutes, and falls back to seconds; the magnitude is the
    exact quotient.  604800 is 7 days. *)
Theorem convertExpiration_largest_exact_unit (n : Z) :
  (0 <= n)%Z ->
  ((n mod 86400 = 0)%Z ->
     convertExpiration (ExpNumber n) =
       Ok (Number_toString (n / 86400) ++ js " days") /\
     (n = 86400 * (n / 86400))%Z) /\
  ((n mod 86400 <> 0)%Z -> (n mod 3600 = 0)%Z ->
     convertExpiration (ExpNumber n) =
       Ok (Number_toString (n / 3600) ++ js " hours") /\
     (n = 3600 * (n / 3600))%Z) /\
  ((n mod 86400 <> 0)%Z -> (n mod 3600 <> 0)%Z -> (n mod 60 = 0)%Z ->
     convertExpiration (ExpNumber n) =
       Ok (Number_toString (n / 60) ++ js " minutes") /\
     (n = 60 * (n / 60))%Z) /\
  ((n mod 86400 <> 0)%Z -> (n mod 3600 <> 0)%Z -> (n mod 60 <> 0)%Z ->
     convertExpiration (ExpNumber n) =
       Ok (Number_toString n ++ js " seconds")) /\
  (exists (size : Z) (suffix : jsstring),
     In (size, suffix) numeric_units /\
     (size | n)%Z /\
     (forall (size' : Z) (suffix' : jsstring),
        In (size', suffix') numeric_units -> (size' | n)%Z ->
        (size' <= size)%Z) /\
     convertExpiration (ExpNumber n) =
       Ok (Number_toString (n / size) ++ suffix)) /\
  convertExpiration (ExpNumber 604800) = Ok (js "7 days").
Proof.
  intros Hn. unfold convertExpiration.
  rewrite !Z.rem_mod_nonneg, !Z.quot_div_nonneg by lia.
  split; [|split; [|split; [|split; [|split]]]].
  - intros H. rewrite H. split; [done|].
    pose proof (Z.div_mod n 86400). lia.
  - intros H1 H2. apply Z.eqb_neq in H1. rewrite H1, H2. split; [done|].
    pose proof (Z.div_mod n 3600). lia.
  - intros H1 H2 H3. apply Z.eqb_neq in H1, H2. rewrite H1, H2, H3.
    split; [done|]. pose proof (Z.div_mod n 60). lia.
  - intros H1 H2 H3. apply Z.eqb_neq in H1, H2, H3. by rewrite H1, H2, H3.
  - destruct (Z.eqb_spec (n mod 86400) 0) as [Hd|Hd];
      [|destruct (Z.eqb_spec (n mod 3600) 0) as [Hh|Hh];
        [|destruct (Z.eqb_spec (n mod 60) 0) as [Hm|Hm]]].
    + exists 86400%Z, (js " days"). split; [by left|].
      split; [by apply Z.mod_divide|]. split; [|done].
      intros size' suffix' Hin _. by units_le Hin.
    + exists 3600%Z, (js " hours"). split; [by right; left|].
      split; [by apply Z.mod_divide|]. split; [|done].
      intros size' suffix' Hin Hdiv. units_le Hin.
      by apply Z.mod_divide in Hdiv.
    + exists 60%Z, (js " minutes"). split; [by right; right; left|].
      split; [by apply Z.mod_divide|]. split; [|done].
      intros size' suffix' Hin Hdiv. units_le Hin;
        by apply Z.mod_divide in Hdiv.
    + exists 1%Z, (js " seconds"). split; [by right; right; right; left|].
      split; [apply Z.divide_1_l|]. split; [|by rewrite Z.div_1_r].
      intros size' suffix' Hin Hdiv. units_le Hin;
        by apply Z.mod_divide in Hdiv.
  - vm_compute. reflexivity.
Qed.

Lemma convertExpiration_largest_exact_unit_witness :
  convertExpiration (ExpNumber 7200) = Ok (js "2 hours") /\
  (7200 = 3600 * (7200 / 3600))%Z.
Proof.
  apply (convertExpiration_largest_exact_unit 7200); [lia | easy | reflexivity].
Defined.

(** C2, as stated, fails: the parser has no test of the sign.  With
    [exp = -5] construction succeeds, and the default duration of the
    plugin is the text "-5 seconds". *)
Lemma negative_exp_is_accepted :
  exists p : Plugin,
    paseto (Some (test_options (Some (ExpNumber (-5))))) = Ok p /\
    defaultExpiration p = js "-5 seconds".
Proof. eexists. split; vm_compute; reflexivity. Qed.

(** Construction with a usable secret and a non-zero number for [exp]:
    the default duration is what the parser returns. *)
Lemma negative_default (n : Z) (text : jsstring) :
  (n < 0)%Z ->
  convertExpiration (ExpNumber n) = Ok text ->
  forall (options : PasetoOptions) (s : jsstring),
    secret options = Some s -> truthy_string s = true ->
    exp options = Some (ExpNumber n) ->
    exists p : Plugin,
      paseto (Some options) = Ok p /\
      configured_exp p = Some (ExpNumber n) /\
      defaultExpiration p = text.
Proof.
  intros Hn Htext options s Hs Hne Hexp.
  destruct (paseto_with_secret options s Hs Hne) as (key & _ & ->).
  rewrite Hexp. cbn [truthy_exp].
  assert ((n =? 0)%Z = false) as -> by (apply Z.eqb_neq; lia).
  cbn [negb]. rewrite Htext. cbn [result_bind]. eauto.
Qed.

(** For an exact multiple the truncated remainder is zero and the
    truncated quotient is the quotient, whatever the sign. *)
Lemma rem_quot_divide (n b : Z) :
  (0 < b)%Z ->
  ((Z.rem n b =? 0)%Z = true <-> (b | n)%Z) /\
  ((b | n)%Z -> Z.quot n b = (n / b)%Z).
Proof.
  intros Hb. split.
  - rewrite Z.eqb_eq. apply Z.rem_divide. lia.
  - intros [q ->]. rewrite Z.quot_mul, Z.div_mul by lia. done.
Qed.

(** C2, amended.  For every negative integer [n] (a safe integer, so that
    it prints as its decimal numeral) the parser returns: it has no test
    of the sign and goes down the same ladder of exact divisions as for a
    positive number, days, then hours, then minutes, each with the exact
    quotient, and ends at "<n> seconds" when 60 does not divide [n].
    Construction with a non-empty secret and [exp = n] succeeds, with the
    parser's text as the default duration. *)
Theorem convertExpiration_negative_returns (n : Z) :
  (n < 0)%Z ->
  safe_integer n ->
  (exists text : jsstring,
     convertExpiration (ExpNumber n) = Ok text /\
     ((86400 | n)%Z ->
      text = Number_toString (n / 86400) ++ js " days") /\
     (~ (86400 | n)%Z -> (3600 | n)%Z ->
      text = Number_toString (n / 3600) ++ js " hours") /\
     (~ (3600 | n)%Z -> (60 | n)%Z ->
      text = Number_toString (n / 60) ++ js " minutes") /\
     (~ (60 | n)%Z -> text = Number_toString n ++ js " seconds") /\
     (forall (options : PasetoOptions) (s : jsstring),
        secret options = Some s -> truthy_string s = true ->
        exp options = Some (ExpNumber n) ->
        exists p : Plugin,
          paseto (Some options) = Ok p /\
          configured_exp p = Some (ExpNumber n) /\
          defaultExpiration p = text)).
Proof.
  intros Hn _.
  destruct (rem_quot_divide n 86400 ltac:(lia)) as [Hd Hdq].
  destruct (rem_quot_divide n 3600 ltac:(lia)) as [Hh Hhq].
  destruct (rem_quot_divide n 60 ltac:(lia)) as [Hm Hmq].
  assert (H86400_3600 : (86400 | n)%Z -> (3600 | n)%Z).
  { intros [q ->]. exists (q * 24)%Z. lia. }
  assert (H3600_60 : (3600 | n)%Z -> (60 | n)%Z).
  { intros [q ->]. exists (q * 60)%Z. lia. }
  assert (Hex : exists text, convertExpiration (ExpNumber n) = Ok text).
  { unfold convertExpiration. repeat case_match; eauto. }
  destruct Hex as [text Htext]. exists text. split; [done|].
  pose proof (negative_default n text Hn Htext) as Hcons.
  unfold convertExpiration in Htext.
  destruct (Z.rem n 86400 =? 0)%Z eqn:E1;
    [|destruct (Z.rem n 3600 =? 0)%Z eqn:E2;
      [|destruct (Z.rem n 60 =? 0)%Z eqn:E3]];
    injection Htext as <-.
  - assert (D1 : (86400 | n)%Z) by by apply Hd.
    rewrite (Hdq D1) in Hcons |- *.
    split; [done|]. split; [tauto|]. split; [tauto|]. split; [tauto|].
    exact Hcons.
  - assert (D1 : ~ (86400 | n)%Z) by (intros X; by apply Hd in X).
    assert (D2 : (3600 | n)%Z) by by apply Hh.
    rewrite (Hhq D2) in Hcons |- *.
    split; [tauto|]. split; [done|]. split; [tauto|]. split; [tauto|].
    exact Hcons.
  - assert (D2 : ~ (3600 | n)%Z) by (intros X; by apply Hh in X).
    assert (D3 : (60 | n)%Z) by by apply Hm.
    rewrite (Hmq D3) in Hcons |- *.
    split; [tauto|]. split; [tauto|]. split; [done|]. split; [tauto|].
    exact Hcons.
  - assert (D3 : ~ (60 | n)%Z) by (intros X; by apply Hm in X).
    split; [tauto|]. split; [tauto|]. split; [tauto|]. split; [done|].
    exact Hcons.
Qed.

Lemma convertExpiration_negative_returns_witness :
  exists text : jsstring,
    convertExpiration (ExpNumber (-86400)) = Ok text /\
    text = js "-1 days" /\
    exists p : Plugin,
      paseto (Some (test_options (Some (ExpNumber (-86400))))) = Ok p /\
      configured_exp p = Some (ExpNumber (-86400)) /\
      defaultExpiration p = text.
Proof.
  destruct (convertExpiration_negative_returns (-86400))
    as (text & Htext & Hdays & _ & _ & _ & Hpaseto);
    [lia | unfold safe_integer; lia |].
  exists text. split; [exact Htext|]. split.
  - rewrite Hdays by (exists (-1)%Z; lia). vm_compute. reflexivity.
  - apply (Hpaseto (test_options (Some (ExpNumber (-86400)))) testSecret);
      reflexivity.
Defined.

Lemma match_expiration_none (s : jsstring) :
  match_expiration s = None <->
  ~ exists (digits : jsstring) (letter : code_unit),
      duration_pattern s digits letter.
Proof.
  split.
  - intros Hnone (digits & letter & Hp).
    assert (match_expiration s = Some (digits, [letter])) as Hsome.
    { apply match_expiration_spec. by exists letter. }
    congruence.
  - intros Hno. destruct (match_expiration s) as [[value unit]|] eqn:Hm; [|done].
    apply match_expiration_spec in Hm as (letter & -> & Hp).
    exfalso. apply Hno. by exists value, letter.
Qed.

(** C9, as stated, fails for one string: the empty string does not match
    the pattern, yet a configuration with [exp: ""] is accepted, because
    the constructor calls the parser only for a truthy [exp]. *)
Lemma empty_exp_is_accepted :
  (~ exists (digits : jsstring) (letter : code_unit),
       duration_pattern [] digits letter) /\
  exists p : Plugin,
    paseto (Some (test_options (Some (ExpString [])))) = Ok p /\
    defaultExpiration p = js "1 hour".
Proof.
  split.
  - by apply match_expiration_none.
  - eexists. split; vm_compute; reflexivity.
Qed.

(** C9, amended.  On a string the parser succeeds exactly when the string
    is digits immediately followed by one of s, m, h, d, w; the result is
    then the digits, a space and the unit the table gives for the letter.
    On any other string the parser throws [InvalidDurationFormat], and so
    does construction when that string is not empty and the secret is
    there. *)
Theorem convertExpiration_string (s : jsstring) :
  ((exists text : jsstring, convertExpiration (ExpString s) = Ok text) <->
   (exists (digits : jsstring) (letter : code_unit),
      duration_pattern s digits letter)) /\
  (forall (digits : jsstring) (letter : code_unit),
     duration_pattern s digits letter ->
     convertExpiration (ExpString s) =
       Ok (digits ++ js " " ++ unit_name letter)) /\
  ((~ exists (digits : jsstring) (letter : code_unit),
        duration_pattern s digits letter) ->
   convertExpiration (ExpString s) = Throw (InvalidDurationFormat s) /\
   (s <> [] ->
    forall (options : PasetoOptions) (sec : jsstring),
      secret options = Some sec -> truthy_string sec = true ->
      exp options = Some (ExpString s) ->
      paseto (Some options) = Throw (InvalidDurationFormat s))).
Proof.
  assert (Hok : forall digits letter,
             duration_pattern s digits letter ->
             convertExpiration (ExpString s) =
               Ok (digits ++ js " " ++ unit_name letter)).
  { intros digits letter Hp.
    assert (match_expiration s = Some (digits, [letter])) as Hm.
    { apply match_expiration_spec. by exists letter. }
    unfold convertExpiration. rewrite Hm.
    destruct Hp as (_ & _ & _ & Hl).
    by rewrite (lookup_unit_letter letter Hl). }
  assert (Hthrow : (~ exists digits letter, duration_pattern s digits letter) ->
             convertExpiration (ExpString s) = Throw (InvalidDurationFormat s)).
  { intros Hno%match_expiration_none. unfold convertExpiration. by rewrite Hno. }
  split; [|split].
  - split.
    + intros [text Htext].
      destruct (match_expiration s) as [[value unit]|] eqn:Hm.
      * apply match_expiration_spec in Hm as (letter & _ & Hp). eauto.
      * apply match_expiration_none in Hm. rewrite Hthrow in Htext by done.
        discriminate.
    + intros (digits & letter & Hp). eauto.
  - exact Hok.
  - intros Hno. split; [by apply Hthrow|].
    intros Hne options sec Hsec Htruthy Hexp.
    destruct (paseto_with_secret options sec Hsec Htruthy) as (key & _ & ->).
    rewrite Hexp. cbn [truthy_exp].
    destruct s as [|c s]; [done|]. cbn [truthy_string].
    by rewrite Hthrow.
Qed.

Lemma convertExpiration_string_witness :
  paseto (Some (test_options (Some (ExpString (js "3x"))))) =
  Throw (InvalidDurationFormat (js "3x")).
Proof.
  destruct (convertExpiration_string (js "3x")) as (_ & _ & H).
  destruct H as [_ H].
  - apply match_expiration_none. vm_compute. reflexivity.
  - apply (H ltac:(discriminate)
             (test_options (Some (ExpString (js "3x")))) testSecret);
      reflexivity.
Defined.

(* ===================================================================== *)
(** ** [sign] and [verify]: the claims *)
(* ===================================================================== *)

Section SignVerify.

Context {World : Type}.
Variable encrypt :
  jsstring -> PasetoPayload -> EncryptOptions -> World ->
  result jsstring * World.
Variable decrypt :
  jsstring -> jsstring -> DecryptOptions -> World ->
  result Decrypted * World.

(** One run of [sign] is one call of [encrypt], whose result it returns. *)
Lemma sign_run (p : Plugin) (payload : PayloadObject) (st : state World) :
  sign World encrypt p payload st =
  (fst (encrypt (secretKey p) (tokenPayload p payload)
                (sign_options payload) (world st)),
   {| world := snd (encrypt (secretKey p) (tokenPayload p payload)
                            (sign_options payload) (world st));
      trace := trace st ++
               [call_encrypt (secretKey p) (tokenPayload p payload)
                             (sign_options payload)] |}).
Proof.
  unfold sign, do_encrypt.
  by destruct (encrypt _ _ _ _) as [r w].
Qed.

Lemma verify_resolves (p : Plugin) (token : option jsstring)
      (st : state World) :
  fst (verify World decrypt p token st) =
  Ok (verify_value decrypt p token (world st)).
Proof.
  unfold verify, verify_value. destruct token as [t|]; [|done].
  destruct (truthy_string t); [|done]. cbn [negb andb].
  destruct (startsWith t (js "v4.local.")); [|done]. cbn [negb].
  unfold try_catch, bind, do_decrypt, emit, ret.
  by destruct (decrypt _ _ _ _) as [[r|e] w].
Qed.

(** The usual path: no truthy [exp] among the caller's own claims nor
    elsewhere on the object, and a truthy [exp] option.  The default
    duration goes into the claims, and [encrypt] is asked for an expiry as
    well. *)
Lemma sign_with_default (p : Plugin) (payload : PayloadObject)
      (st : state World) :
  truthy (get_exp (spread payload)) = false ->
  truthy (read_exp payload) = false ->
  truthy_exp (configured_exp p) = true ->
  tokenPayload p payload =
    <[js "exp" := JStr (defaultExpiration p)]> (spread payload) /\
  sign_options payload =
    {| addIat := true; addExp := true; validatePayload := true |}.
Proof.
  intros Hget Hread Hcfg. unfold tokenPayload, sign_options.
  by rewrite Hget, Hread, Hcfg.
Qed.

(** C1, amended.  When the plugin has no [exp] option and the caller's
    claims have no [exp], [sign] hands the caller's claims to [encrypt] as
    they are, so no default duration is placed in them; but it asks
    [encrypt] to add an expiry of its own: [addExp] is true. *)
Theorem sign_without_exp (p : Plugin) (payload : PayloadObject)
        (st : state World) :
  configured_exp p = None ->
  lookup_property payload (js "exp") = None ->
  exists (claims : PasetoPayload) (options : EncryptOptions),
    sign World encrypt p payload st =
    (fst (encrypt (secretKey p) claims options (world st)),
     {| world := snd (encrypt (secretKey p) claims options (world st));
        trace := trace st ++ [call_encrypt (secretKey p) claims options] |}) /\
    claims = spread payload /\
    claims !! js "exp" = None /\
    options = {| addIat := true; addExp := true; validatePayload := true |}.
Proof.
  intros Hcfg Hexp.
  exists (tokenPayload p payload), (sign_options payload).
  split; [apply sign_run|].
  assert (Hread : read_exp payload = JUndefined).
  { unfold read_exp. by rewrite Hexp. }
  assert (Hown : spread payload !! js "exp" = None).
  { unfold lookup_property, spread in *.
    by destruct (own_enumerable payload !! js "exp"). }
  assert (Hclaims : tokenPayload p payload = spread payload).
  { unfold tokenPayload. by rewrite Hcfg, andb_false_r. }
  rewrite Hclaims. repeat split; [done|].
  unfold sign_options. by rewrite Hread.
Qed.



(** C4.  A token that is absent, empty, or does not begin with
    "v4.local." makes [verify] resolve to [false]; the run leaves the
    world as it was and adds no call of [decrypt] to the trace. *)
Theorem verify_format_gate (p : Plugin) (token : option jsstring)
        (st : state World) :
  (token = None \/ token = Some [] \/
   exists t : jsstring,
     token = Some t /\ startsWith t (js "v4.local.") = false) ->
  exists events : list event,
    verify World decrypt p token st =
    (Ok VFalse, {| world := world st; trace := trace st ++ events |}) /\
    no_call_decrypt events.
Proof.
  assert (Hst : st = {| world := world st; trace := trace st ++ [] |}).
  { destruct st. cbn. by rewrite app_nil_r. }
  intros [-> | [-> | (t & -> & Hpre)]].
  - exists []. split; [|constructor]. cbn. unfold ret. by rewrite <- Hst.
  - exists []. split; [|constructor]. cbn. unfold ret. by rewrite <- Hst.
  - unfold verify. destruct (truthy_string t).
    + cbn [negb]. rewrite Hpre. cbn [negb].
      exists [console_warn (js "Invalid PASETO token format")].
      split; [reflexivity|]. by repeat constructor.
    + exists []. split; [|constructor]. cbn. unfold ret. by rewrite <- Hst.
Qed.

(** C5.  [verify] never throws.  It resolves to the claims the codec
    returned, or to [false]; and it is the one value [false] when the
    token is absent or empty, when the prefix is wrong, and when [decrypt]
    throws, whatever [decrypt] throws (bad key, tampering, expired, not
    yet valid). *)
Theorem verify_never_throws (p : Plugin) (token : option jsstring)
        (st : state World) :
  fst (verify World decrypt p token st) =
    Ok (verify_value decrypt p token (world st)) /\
  (fst (verify World decrypt p token st) = Ok VFalse \/
   exists (t : jsstring) (r : Decrypted),
     token = Some t /\
     fst (decrypt (secretKey p) t {| decrypt_validatePayload := true |}
                  (world st)) = Ok r /\
     fst (verify World decrypt p token st) = Ok (VPayload (payload r))) /\
  (forall (t : jsstring) (e : error),
     token = Some t ->
     fst (decrypt (secretKey p) t {| decrypt_validatePayload := true |}
                  (world st)) = Throw e ->
     fst (verify World decrypt p token st) = Ok VFalse).
Proof.
  split; [apply verify_resolves|]. rewrite verify_resolves. split.
  - unfold verify_value. destruct token as [t|]; [|by left].
    destruct (truthy_string t && startsWith t (js "v4.local.")); [|by left].
    destruct (fst (decrypt _ _ _ _)) as [r|e] eqn:Hd; [|by left].
    right. by exists t, r.
  - intros t e -> Hd. unfold verify_value. rewrite Hd. by case_match.
Qed.

End SignVerify.

(* ===================================================================== *)
(** ** [sign] and [verify] on concrete runs *)
(* ===================================================================== *)

(** C1, as stated, fails: without an [exp] option and without an [exp]
    claim, the one call of [encrypt] that [sign] makes carries
    [addExp = true]. *)
Lemma sign_without_exp_asks_for_expiry :
  exists (p : Plugin) (r : result jsstring) (st' : state TestCodec.World)
         (key : jsstring) (claims : PasetoPayload) (options : EncryptOptions),
    paseto (Some (test_options None)) = Ok p /\
    configured_exp p = None /\
    lookup_property (plain user_claims) (js "exp") = None /\
    sign TestCodec.World TestCodec.encrypt p (plain user_claims)
         TestCodec.start = (r, st') /\
    trace st' = [call_encrypt key claims options] /\
    addExp options <> false.
Proof.
  do 6 eexists. split; [vm_compute; reflexivity|].
  split; [reflexivity|]. split; [vm_compute; reflexivity|].
  split; [rewrite sign_run; reflexivity|].
  split; [reflexivity|]. vm_compute. discriminate.
Qed.

Lemma sign_without_exp_witness :
  exists (p : Plugin) (claims : PasetoPayload) (options : EncryptOptions),
    paseto (Some (test_options None)) = Ok p /\
    sign TestCodec.World TestCodec.encrypt p (plain user_claims)
         TestCodec.start =
    (fst (TestCodec.encrypt (secretKey p) claims options
                            (world TestCodec.start)),
     {| world := snd (TestCodec.encrypt (secretKey p) claims options
                                        (world TestCodec.start));
        trace := trace TestCodec.start ++
                 [call_encrypt (secretKey p) claims options] |}) /\
    claims = user_claims /\
    claims !! js "exp" = None /\
    options = {| addIat := true; addExp := true; validatePayload := true |}.
Proof.
  eexists.
  destruct (sign_without_exp TestCodec.encrypt
              (test_plugin None (js "1 hour"))
              (plain user_claims) TestCodec.start)
    as (claims & options & H); [reflexivity | vm_compute; reflexivity |].
  exists claims, options. split; [vm_compute; reflexivity|]. exact H.
Defined.


(** C6, as stated, fails also for an [exp] the caller's object does not
    hold as an own enumerable property: the spread leaves it behind, so
    with the option [exp: "1h"] the claims get the default duration, while
    [addExp] is read off the object itself and is false. *)
Lemma sign_replaces_inherited_exp :
  exists (p : Plugin) (r : result jsstring) (st' : state TestCodec.World)
         (key : jsstring) (claims : PasetoPayload) (options : EncryptOptions),
    paseto (Some (test_options (Some (ExpString (js "1h"))))) = Ok p /\
    read_exp (claims_inheriting_exp (JStr customExp)) = JStr customExp /\
    sign TestCodec.World TestCodec.encrypt p
         (claims_inheriting_exp (JStr customExp)) TestCodec.start = (r, st') /\
    trace st' = [call_encrypt key claims options] /\
    claims !! js "exp" = Some (JStr (js "1 hours")) /\
    addExp options = false.
Proof.
  do 6 eexists. split; [vm_compute; reflexivity|].
  split; [vm_compute; reflexivity|].
  split; [rewrite sign_run; reflexivity|].
  split; [reflexivity|].
  split; vm_compute; reflexivity.
Qed.



Lemma verify_format_gate_witness :
  exists events : list event,
    verify TestCodec.World TestCodec.decrypt
           (test_plugin (Some (ExpString (js "1h"))) (js "1 hours"))
           (Some (js "v3.local.invalid-token-here")) TestCodec.start =
    (Ok VFalse,
     {| world := world TestCodec.start;
        trace := trace TestCodec.start ++ events |}) /\
    no_call_decrypt events.
Proof.
  apply (verify_format_gate TestCodec.decrypt).
  right. right. eexists. split; reflexivity.
Defined.

Lemma verify_never_throws_witness :
  fst (verify TestCodec.World TestCodec.decrypt
              (test_plugin (Some (ExpString (js "1h"))) (js "1 hours"))
              (Some (js "v4.local.something")) TestCodec.start) = Ok VFalse.
Proof.
  apply (proj2 (proj2 (verify_never_throws TestCodec.decrypt
           (test_plugin (Some (ExpString (js "1h"))) (js "1 hours"))
           (Some (js "v4.local.something")) TestCodec.start))
           (js "v4.local.something") (Error (js "decryption failed")));
    reflexivity.
Defined.

(** The repository's round trip: what is signed verifies, with the
    caller's claims among the claims returned. *)
Example sign_then_verify :
  exists (token : jsstring) (st1 st2 : state TestCodec.World)
         (claims : PasetoPayload),
    sign TestCodec.World TestCodec.encrypt
         (test_plugin (Some (ExpString (js "1h"))) (js "1 hours"))
         (plain user_claims) TestCodec.start = (Ok token, st1) /\
    startsWith token (js "v4.local.") = true /\
    verify TestCodec.World TestCodec.decrypt
           (test_plugin (Some (ExpString (js "1h"))) (js "1 hours"))
           (Some token) st1 = (Ok (VPayload claims), st2) /\
    claims !! js "id" = Some (JStr (js "user123")) /\
    claims !! js "exp" = Some (JStr (js "1 hours")).
Proof.
  do 4 eexists. split; [vm_compute; reflexivity|].
  split; [reflexivity|]. split; [vm_compute; reflexivity|].
  split; vm_compute; reflexivity.
Qed.

(** A token signed under one secret is accepted under another secret that
    is cut to the same 32 bytes. *)
Example sign_short_verify_padded :
  exists (p1 p2 : Plugin) (token : jsstring)
         (st1 st2 : state TestCodec.World) (claims : PasetoPayload),
    paseto (Some {| name := None; secret := Some short_secret;
                    exp := None |}) = Ok p1 /\
    paseto (Some {| name := None; secret := Some short_secret_nul;
                    exp := None |}) = Ok p2 /\
    sign TestCodec.World TestCodec.encrypt p1 (plain user_claims)
         TestCodec.start
      = (Ok token, st1) /\
    verify TestCodec.World TestCodec.decrypt p2 (Some token) st1
      = (Ok (VPayload claims), st2) /\
    claims !! js "id" = Some (JStr (js "user123")).
Proof.
  do 6 eexists. split; [vm_compute; reflexivity|].
  split; [vm_compute; reflexivity|].
  split; [vm_compute; reflexivity|].
  split; vm_compute; reflexivity.
Qed.

(** The caller's expiry comes back from the round trip, not the default
    of the plugin. *)
Example sign_custom_exp_then_verify :
  exists (token : jsstring) (st1 st2 : state TestCodec.World)
         (claims : PasetoPayload),
    sign TestCodec.World TestCodec.encrypt
         (test_plugin (Some (ExpString (js "1h"))) (js "1 hours"))
         (plain (claims_with_exp (JStr customExp))) TestCodec.start
      = (Ok token, st1) /\
    verify TestCodec.World TestCodec.decrypt
           (test_plugin (Some (ExpString (js "1h"))) (js "1 hours"))
           (Some token) st1 = (Ok (VPayload claims), st2) /\
    claims !! js "exp" = Some (JStr customExp).
Proof.
  do 4 eexists. split; [vm_compute; reflexivity|].
  split; vm_compute; reflexivity.
Qed.

(** A token of another secret is refused, and so is a tampered one. *)
Example verify_other_secret :
  exists (p2 : Plugin) (token : jsstring) (st1 st2 : state TestCodec.World),
    paseto (Some {| name := Some (js "paseto");
                    secret := Some (js "different-secret-key-32-bytes");
                    exp := Some (ExpString (js "1h")) |}) = Ok p2 /\
    sign TestCodec.World TestCodec.encrypt p2 (plain user_claims)
         TestCodec.start
      = (Ok token, st1) /\
    verify TestCodec.World TestCodec.decrypt
           (test_plugin (Some (ExpString (js "1h"))) (js "1 hours"))
           (Some token) st1 = (Ok VFalse, st2) /\
    fst (verify TestCodec.World TestCodec.decrypt p2
                (Some (token ++ js "tampered!!")) st1) = Ok VFalse.
Proof.
  do 4 eexists. split; [vm_compute; reflexivity|].
  split; [vm_compute; reflexivity|].
  split; vm_compute; reflexivity.
Qed.

(* ===================================================================== *)
(** ** Further properties: keys and construction *)
(* ===================================================================== *)

Lemma startsWith_spec (s p : jsstring) :
  startsWith s p = true <-> exists t : jsstring, s = p ++ t.
Proof.
  revert s. induction p as [|c p IH]; intros [|d s]; cbn [startsWith].
  - split; [intros _; by exists [] | done].
  - split; [intros _; by eexists | done].
  - split; [discriminate | intros (t & Ht); discriminate].
  - rewrite andb_true_iff, N.eqb_eq, IH. split.
    + intros (-> & t & ->). by exists t.
    + intros (t & [= -> ->]). split; [done | by exists t].
Qed.

Lemma prepareSecret_ok_prefix (secret : jsstring) :
  exists key : jsstring,
    prepareSecret secret = Ok key /\ startsWith key paserk_prefix = true.
Proof.
  destruct (startsWith secret paserk_prefix) eqn:Hpre.
  - exists secret. by rewrite prepareSecret_passthrough.
  - eexists. rewrite prepareSecret_derived by done.
    split; [done|]. apply startsWith_spec. by eexists.
Qed.

(** [prepareSecret] never throws: the copy into the 32-byte array is made
    only when it fits.  What it returns begins with "k4.local."; when the
    key was derived and not passed through, it is 52 code units long. *)
Theorem prepareSecret_returns_paserk (secret : jsstring) :
  exists key : jsstring,
    prepareSecret secret = Ok key /\
    startsWith key paserk_prefix = true /\
    (startsWith secret paserk_prefix = false -> length key = 52%nat).
Proof.
  destruct (prepareSecret_ok_prefix secret) as (key & Hkey & Hpre).
  exists key. split; [done|]. split; [done|].
  intros Hno. rewrite prepareSecret_derived in Hkey by done.
  assert (key = paserk_prefix ++
                base64url (pad_or_truncate 32 (TextEncoder_encode secret)))
    as -> by congruence.
  rewrite length_app, base64url_length, pad_or_truncate_length.
  reflexivity.
Qed.

(** Normalising twice is normalising once: a key that [prepareSecret]
    returned is passed through unchanged when it is used as a secret. *)
Theorem prepareSecret_idempotent (secret : jsstring) :
  result_bind (prepareSecret secret) prepareSecret = prepareSecret secret.
Proof.
  destruct (prepareSecret_ok_prefix secret) as (key & Hkey & Hpre).
  rewrite Hkey. cbn [result_bind]. by apply prepareSecret_passthrough.
Qed.

Lemma convertExpiration_throws (e : exp_option) (err : error) :
  convertExpiration e = Throw err ->
  exists s : jsstring,
    e = ExpString s /\ match_expiration s = None /\
    err = InvalidDurationFormat s.
Proof.
  destruct e as [s|n]; cbn [convertExpiration].
  - destruct (match_expiration s) as [[value unit]|] eqn:Hm; [discriminate|].
    intros [= <-]. by exists s.
  - repeat case_match; discriminate.
Qed.

Lemma InvalidDurationFormat_not_MissingSecret (s : jsstring) :
  InvalidDurationFormat s <> MissingSecret.
Proof. discriminate. Qed.

(** The constructor without a usable secret. *)
Lemma paseto_without_secret (options : option PasetoOptions) :
  options ≫= secret = None \/ options ≫= secret = Some [] ->
  paseto options = Throw MissingSecret.
Proof. unfold paseto. by intros [-> | ->]. Qed.

(** The constructor with a usable secret, whatever [options] is. *)
Lemma paseto_unfold (options : option PasetoOptions) (s : jsstring) :
  options ≫= secret = Some s -> truthy_string s = true ->
  exists (opts : PasetoOptions) (key : jsstring),
    options = Some opts /\ secret opts = Some s /\
    prepareSecret s = Ok key /\
    startsWith key paserk_prefix = true /\
    paseto options =
    result_bind
      (match exp opts with
       | Some e => if truthy_exp (exp opts) then convertExpiration e
                   else Ok (js "1 hour")
       | None => Ok (js "1 hour")
       end)
      (fun d =>
         Ok {| plugin_name := js "plugin." ++ or_else (name opts) (js "paseto");
               decorator := or_else (name opts) (js "paseto");
               secretKey := key;
               configured_exp := exp opts;
               defaultExpiration := d |}).
Proof.
  intros Hs Hne. destruct options as [opts|]; [|discriminate].
  cbn in Hs.
  destruct (prepareSecret_ok_prefix s) as (key & Hkey & Hpre).
  destruct (paseto_with_secret opts s Hs Hne) as (key' & Hkey' & Hp).
  assert (key' = key) as -> by congruence.
  by exists opts, key.
Qed.

(** Construction fails with [MissingSecret] exactly when there are no
    options, no secret, or an empty secret; an [exp] that cannot be parsed
    does not change that, the secret is looked at first. *)
Theorem paseto_MissingSecret_iff (options : option PasetoOptions) :
  paseto options = Throw MissingSecret <->
  (options ≫= secret = None \/ options ≫= secret = Some []).
Proof.
  split; [|apply paseto_without_secret].
  intros Hp. destruct (options ≫= secret) as [[|c s]|] eqn:Hs; auto.
  exfalso.
  destruct (paseto_unfold options (c :: s) Hs eq_refl)
    as (opts & key & -> & _ & _ & _ & Heq).
  rewrite Heq in Hp.
  match type of Hp with
  | result_bind ?d _ = _ => destruct d as [dflt|e] eqn:Hd
  end; [discriminate|].
  cbn [result_bind] in Hp. injection Hp as ->.
  destruct (exp opts) as [e|]; [|discriminate].
  destruct (truthy_exp (Some e)); [|discriminate].
  apply convertExpiration_throws in Hd as (s' & _ & _ & Herr).
  by apply eq_sym, InvalidDurationFormat_not_MissingSecret in Herr.
Qed.

Lemma InvalidDurationFormat_inj (s s' : jsstring) :
  InvalidDurationFormat s = InvalidDurationFormat s' -> s = s'.
Proof. unfold InvalidDurationFormat. by intros [= H]. Qed.

(** Construction fails with [InvalidDurationFormat s] exactly when the
    secret is usable and [exp] is the string [s], not empty and not of the
    form digits-then-unit-letter. *)
Theorem paseto_InvalidDurationFormat_iff
        (options : option PasetoOptions) (s : jsstring) :
  paseto options = Throw (InvalidDurationFormat s) <->
  (exists sec : jsstring,
     options ≫= secret = Some sec /\ sec <> [] /\
     options ≫= exp = Some (ExpString s) /\ s <> [] /\
     ~ exists (digits : jsstring) (letter : code_unit),
         duration_pattern s digits letter).
Proof.
  split.
  - intros Hp. destruct (options ≫= secret) as [[|c sec]|] eqn:Hs.
    + rewrite paseto_without_secret in Hp by auto. discriminate.
    + destruct (paseto_unfold options (c :: sec) Hs eq_refl)
        as (opts & key & -> & _ & _ & _ & Heq).
      rewrite Heq in Hp. exists (c :: sec). split; [done|]. split; [done|].
      match type of Hp with
      | result_bind ?d _ = _ => destruct d as [dflt|e] eqn:Hd
      end; [discriminate|].
      cbn [result_bind] in Hp. injection Hp as He.
      cbn [mbind option_bind].
      destruct (exp opts) as [e'|]; [|discriminate].
      destruct (truthy_exp (Some e')) eqn:Ht; [|discriminate].
      apply convertExpiration_throws in Hd as (s' & -> & Hm & ->).
      apply InvalidDurationFormat_inj in He as <-.
      split; [done|]. split; [by destruct s'|].
      by apply match_expiration_none.
    + rewrite paseto_without_secret in Hp by auto. discriminate.
  - intros (sec & Hs & Hne & He & Hsne & Hno).
    assert (Hsec : truthy_string sec = true) by by destruct sec.
    destruct (paseto_unfold options sec Hs Hsec)
      as (opts & key & -> & _ & _ & _ & ->).
    cbn [mbind option_bind] in He. rewrite He. cbn [truthy_exp].
    assert (truthy_string s = true) as -> by by destruct s.
    apply match_expiration_none in Hno.
    unfold convertExpiration. by rewrite Hno.
Qed.

Lemma paseto_InvalidDurationFormat_iff_witness :
  paseto (Some (test_options (Some (ExpString (js "7 d"))))) =
  Throw (InvalidDurationFormat (js "7 d")).
Proof.
  apply (proj2 (paseto_InvalidDurationFormat_iff
                  (Some (test_options (Some (ExpString (js "7 d")))))
                  (js "7 d"))).
  exists testSecret. split; [reflexivity|]. split; [discriminate|].
  split; [reflexivity|]. split; [discriminate|].
  apply match_expiration_none. vm_compute. reflexivity.
Defined.

(** Every text the duration parser returns is non-empty. *)
Lemma convertExpiration_nonempty (e : exp_option) (text : jsstring) :
  convertExpiration e = Ok text -> text <> [].
Proof.
  destruct e as [s|n]; cbn [convertExpiration].
  - destruct (match_expiration s) as [[value unit]|]; [|discriminate].
    intros [= <-]. intros Hnil. apply (f_equal length) in Hnil.
    rewrite !length_app in Hnil. cbn in Hnil. lia.
  - repeat case_match; intros [= <-]; intros Hnil;
      apply (f_equal length) in Hnil; rewrite length_app in Hnil;
      cbn in Hnil; lia.
Qed.

(** What a constructed plugin is made of. *)
Lemma paseto_inversion (options : option PasetoOptions) (p : Plugin) :
  paseto options = Ok p ->
  exists (opts : PasetoOptions) (s : jsstring),
    options = Some opts /\ secret opts = Some s /\ s <> [] /\
    prepareSecret s = Ok (secretKey p) /\
    startsWith (secretKey p) paserk_prefix = true /\
    decorator p = or_else (name opts) (js "paseto") /\
    plugin_name p = js "plugin." ++ decorator p /\
    configured_exp p = exp opts /\
    (truthy_exp (exp opts) = false -> defaultExpiration p = js "1 hour") /\
    (forall e, exp opts = Some e -> truthy_exp (exp opts) = true ->
               convertExpiration e = Ok (defaultExpiration p)).
Proof.
  intros Hp. destruct (options ≫= secret) as [[|c sec]|] eqn:Hs.
  - rewrite paseto_without_secret in Hp by auto. discriminate.
  - destruct (paseto_unfold options (c :: sec) Hs eq_refl)
      as (opts & key & -> & Hsec & Hkey & Hpre & Heq).
    rewrite Heq in Hp. exists opts, (c :: sec).
    match type of Hp with
    | result_bind ?d _ = _ => destruct d as [dflt|e] eqn:Hd
    end; [|discriminate].
    cbn [result_bind] in Hp. injection Hp as <-.
    cbn [secretKey decorator plugin_name configured_exp defaultExpiration].
    repeat (split; [done|]). split.
    + intros Ht. rewrite Ht in Hd. destruct (exp opts); congruence.
    + intros e He Ht. rewrite Ht, He in Hd. done.
  - rewrite paseto_without_secret in Hp by auto. discriminate.
Qed.

(** Construction succeeds exactly when the secret is usable and [exp] is
    falsy (absent, the empty string, the number 0), any other number, or
    a string of the form digits-then-unit-letter. *)
Theorem paseto_succeeds_iff (options : option PasetoOptions) :
  (exists p : Plugin, paseto options = Ok p) <->
  (exists sec : jsstring,
     options ≫= secret = Some sec /\ sec <> [] /\
     (truthy_exp (options ≫= exp) = false \/
      (exists n : Z, options ≫= exp = Some (ExpNumber n)) \/
      (exists (s digits : jsstring) (letter : code_unit),
         options ≫= exp = Some (ExpString s) /\
         duration_pattern s digits letter))).
Proof.
  split.
  - intros (p & Hp).
    destruct (paseto_inversion options p Hp)
      as (opts & s & -> & Hs & Hne & _ & _ & _ & _ & _ & _ & Hconv).
    exists s. split; [done|]. split; [done|]. cbn [mbind option_bind].
    destruct (truthy_exp (exp opts)) eqn:Ht; [|by left]. right.
    destruct (exp opts) as [[s'|n]|] eqn:He; [|by left; exists n|done].
    right. specialize (Hconv _ eq_refl eq_refl).
    cbn [convertExpiration] in Hconv.
    destruct (match_expiration s') as [[value unit]|] eqn:Hm; [|discriminate].
    apply match_expiration_spec in Hm as (letter & _ & Hpat).
    by exists s', value, letter.
  - intros (sec & Hs & Hne & Hexp).
    assert (Hsec : truthy_string sec = true) by by destruct sec.
    destruct (paseto_unfold options sec Hs Hsec)
      as (opts & key & -> & _ & _ & _ & ->).
    cbn [mbind option_bind] in Hexp.
    destruct Hexp as [Hf | [(n & Hn) | (s & digits & letter & Hsome & Hpat)]].
    + rewrite Hf. destruct (exp opts); cbn [result_bind]; eauto.
    + rewrite Hn. destruct (truthy_exp (Some (ExpNumber n)));
        [|cbn [result_bind]; eauto].
      cbn [convertExpiration]. repeat case_match; cbn [result_bind]; eauto.
    + rewrite Hsome. destruct (truthy_exp (Some (ExpString s)));
        [|cbn [result_bind]; eauto].
      assert (Hm : match_expiration s = Some (digits, [letter])).
      { apply match_expiration_spec. by exists letter. }
      cbn [convertExpiration]. rewrite Hm. cbn [result_bind]. eauto.
Qed.

Lemma paseto_succeeds_iff_witness :
  exists p : Plugin,
    paseto (Some (test_options (Some (ExpNumber 0)))) = Ok p.
Proof.
  apply (proj2 (paseto_succeeds_iff (Some (test_options (Some (ExpNumber 0)))))).
  exists testSecret. split; [reflexivity|]. split; [discriminate|].
  left. reflexivity.
Defined.

Lemma paseto_default_nonempty (options : option PasetoOptions) (p : Plugin) :
  paseto options = Ok p ->
  configured_exp p = options ≫= exp /\ defaultExpiration p <> [].
Proof.
  intros Hp.
  destruct (paseto_inversion options p Hp)
    as (opts & s & -> & _ & _ & _ & _ & _ & _ & Hcfg & Hf & Hconv).
  cbn [mbind option_bind]. split; [done|].
  destruct (truthy_exp (exp opts)) eqn:Ht.
  - destruct (exp opts) as [e|] eqn:He; [|done].
    by eapply convertExpiration_nonempty, Hconv.
  - by rewrite Hf.
Qed.

(** A constructed plugin is well formed: its key begins with "k4.local.",
    the property it hangs on is the configured name, or "paseto" when the
    name is absent or empty, and is never empty; the instance is named
    "plugin." followed by it; and its default duration is not empty. *)
Theorem paseto_plugin_wellformed
        (options : option PasetoOptions) (p : Plugin) :
  paseto options = Ok p ->
  startsWith (secretKey p) paserk_prefix = true /\
  decorator p <> [] /\
  (forall n : jsstring,
     options ≫= name = Some n -> n <> [] -> decorator p = n) /\
  (options ≫= name = None \/ options ≫= name = Some [] ->
   decorator p = js "paseto") /\
  plugin_name p = js "plugin." ++ decorator p /\
  configured_exp p = options ≫= exp /\
  defaultExpiration p <> [].
Proof.
  intros Hp.
  destruct (paseto_inversion options p Hp)
    as (opts & s & -> & Hs & Hne & _ & Hpre & Hdec & Hname & Hcfg & Hf & Hconv).
  cbn [mbind option_bind].
  split; [done|]. split.
  { rewrite Hdec. unfold or_else. destruct (name opts) as [[|c n]|]; done. }
  split.
  { intros n Hn Hnn. rewrite Hdec, Hn. by destruct n. }
  split.
  { intros [Hn|Hn]; by rewrite Hdec, Hn. }
  split; [done|]. split; [done|].
  destruct (truthy_exp (exp opts)) eqn:Ht.
  - destruct (exp opts) as [e|] eqn:He; [|done].
    by eapply convertExpiration_nonempty, Hconv.
  - by rewrite Hf.
Qed.

Lemma paseto_plugin_wellformed_witness :
  exists p : Plugin,
    paseto (Some {| name := Some []; secret := Some (js "k4.local.x");
                    exp := Some (ExpNumber 90) |}) = Ok p /\
    decorator p = js "paseto" /\
    plugin_name p = js "plugin." ++ decorator p.
Proof.
  eexists. split; [vm_compute; reflexivity|].
  destruct (paseto_plugin_wellformed
              (Some {| name := Some []; secret := Some (js "k4.local.x");
                       exp := Some (ExpNumber 90) |}) _
              ltac:(vm_compute; reflexivity))
    as (_ & _ & _ & Hdflt & Hname & _).
  split; [apply Hdflt; by right | exact Hname].
Defined.

(* ===================================================================== *)
(** ** Further properties: [sign] and [verify] *)
(* ===================================================================== *)

Section MoreSignVerify.

Context {World : Type}.
Variable encrypt :
  jsstring -> PasetoPayload -> EncryptOptions -> World ->
  result jsstring * World.
Variable decrypt :
  jsstring -> jsstring -> DecryptOptions -> World ->
  result Decrypted * World.

(** [sign] touches no claim but [exp]: every other own enumerable claim
    of the caller, [iat] and [nbf] among them, reaches [encrypt] as it was
    given, and no such claim is dropped.  The call always carries the key
    of the plugin and asks for [iat] and for validation. *)
Theorem sign_touches_only_exp (p : Plugin) (payload : PayloadObject)
        (st : state World) :
  exists (claims : PasetoPayload) (options : EncryptOptions),
    trace (snd (sign World encrypt p payload st)) =
      trace st ++ [call_encrypt (secretKey p) claims options] /\
    (forall k : jsstring,
       k <> js "exp" -> claims !! k = own_enumerable payload !! k) /\
    (forall k : jsstring,
       is_Some (own_enumerable payload !! k) -> is_Some (claims !! k)) /\
    addIat options = true /\ validatePayload options = true.
Proof.
  exists (tokenPayload p payload), (sign_options payload).
  rewrite sign_run. split; [done|].
  unfold tokenPayload, spread. split; [|split; [|done]].
  - intros k Hk. case_match; [|done]. by rewrite lookup_insert_ne.
  - intros k Hk. case_match; [|done].
    destruct (decide (k = js "exp")) as [->|Hne].
    + rewrite lookup_insert_eq. eauto.
    + by rewrite lookup_insert_ne.
Qed.

(** When the caller's object has no [exp] other than an own enumerable
    one, whatever [sign] hands to [encrypt] has a source of expiry: the
    claims carry a truthy [exp], or [encrypt] is asked to add one.  With a
    constructed plugin whose [exp] option is truthy the claims always
    carry a truthy [exp]; and [encrypt] is asked for none only when the
    claims are the caller's own, with their truthy [exp], untouched. *)
Theorem sign_always_names_an_expiry
        (options : option PasetoOptions) (p : Plugin)
        (payload : PayloadObject) (st : state World) :
  paseto options = Ok p ->
  not_enumerated payload !! js "exp" = None ->
  exists (claims : PasetoPayload) (opts : EncryptOptions),
    trace (snd (sign World encrypt p payload st)) =
      trace st ++ [call_encrypt (secretKey p) claims opts] /\
    (truthy (get_exp claims) = true \/ addExp opts = true) /\
    (truthy_exp (options ≫= exp) = true -> truthy (get_exp claims) = true) /\
    (addExp opts = false ->
     claims = spread payload /\ truthy (get_exp (spread payload)) = true).
Proof.
  intros Hp Hplain.
  destruct (paseto_default_nonempty options p Hp) as (Hcfg & Hdflt).
  assert (Hread : read_exp payload = get_exp (spread payload)).
  { unfold read_exp, lookup_property, get_exp, spread. rewrite Hplain.
    by destruct (own_enumerable payload !! js "exp"). }
  exists (tokenPayload p payload), (sign_options payload).
  rewrite sign_run. split; [done|].
  unfold tokenPayload, sign_options. cbn [addExp]. rewrite Hcfg, Hread.
  destruct (truthy (get_exp (spread payload))) eqn:Hget; cbn [negb andb].
  - split; [by left|]. split; [done|]. done.
  - split; [by right|]. split; [|discriminate].
    intros ->. unfold get_exp. rewrite lookup_insert_eq. cbn.
    by destruct (defaultExpiration p).
Qed.

(** An [exp] that the caller's object holds only outside its own
    enumerable properties (inherited, or not enumerable) is seen by the
    test for [addExp] and missed by the copy: with a truthy value there,
    [encrypt] is not asked for an expiry, and the claims carry the default
    duration when the [exp] option is truthy and no [exp] at all when it
    is not. *)
Theorem sign_misses_exp_outside_copy (p : Plugin) (payload : PayloadObject)
        (T : jsval) (st : state World) :
  own_enumerable payload !! js "exp" = None ->
  not_enumerated payload !! js "exp" = Some T ->
  truthy T = true ->
  exists (claims : PasetoPayload) (opts : EncryptOptions),
    trace (snd (sign World encrypt p payload st)) =
      trace st ++ [call_encrypt (secretKey p) claims opts] /\
    addExp opts = false /\
    (truthy_exp (configured_exp p) = true ->
     claims !! js "exp" = Some (JStr (defaultExpiration p))) /\
    (truthy_exp (configured_exp p) = false -> claims !! js "exp" = None).
Proof.
  intros Hown Hother HT.
  exists (tokenPayload p payload), (sign_options payload).
  rewrite sign_run. split; [done|].
  assert (Hread : read_exp payload = T).
  { unfold read_exp, lookup_property. by rewrite Hown, Hother. }
  assert (Hget : get_exp (spread payload) = JUndefined).
  { unfold get_exp, spread. by rewrite Hown. }
  unfold tokenPayload, sign_options. cbn [addExp].
  rewrite Hread, Hget, HT. cbn [truthy negb andb].
  split; [done|]. split.
  - intros ->. by rewrite lookup_insert_eq.
  - by intros ->.
Qed.

(** The fallback text "1 hour" of the constructor never reaches a token
    through the claims: what [sign] hands to [encrypt] is the caller's
    claims, or the caller's claims with [exp] set to the text the duration
    parser returned for the configured [exp]. *)
Theorem sign_default_is_parsed_exp
        (options : option PasetoOptions) (p : Plugin)
        (payload : PayloadObject) (st : state World) :
  paseto options = Ok p ->
  exists (claims : PasetoPayload) (opts : EncryptOptions),
    trace (snd (sign World encrypt p payload st)) =
      trace st ++ [call_encrypt (secretKey p) claims opts] /\
    (claims = spread payload \/
     exists (e : exp_option) (text : jsstring),
       options ≫= exp = Some e /\
       convertExpiration e = Ok text /\
       truthy (get_exp (spread payload)) = false /\
       claims = <[js "exp" := JStr text]> (spread payload)).
Proof.
  intros Hp.
  destruct (paseto_inversion options p Hp)
    as (opts & s & -> & _ & _ & _ & _ & _ & _ & Hcfg & _ & Hconv).
  exists (tokenPayload p payload), (sign_options payload).
  rewrite sign_run. split; [done|].
  unfold tokenPayload. rewrite Hcfg. cbn [mbind option_bind].
  destruct (truthy (get_exp (spread payload))) eqn:Hget; [by left|].
  destruct (truthy_exp (exp opts)) eqn:Ht; [|by left]. cbn [negb andb].
  right. destruct (exp opts) as [e|] eqn:He; [|done].
  exists e, (defaultExpiration p). repeat split; try done. by apply Hconv.
Qed.

(** The gate of [verify] is exact: for a token that is not empty and
    begins with "v4.local.", [verify] calls [decrypt] once, with the key of
    the plugin, the token as it came and validation on.  It returns the
    claims when [decrypt] returns; when [decrypt] throws, it logs the error
    once and returns [false].  The world is left as [decrypt] left it. *)
Theorem verify_decrypts_once (p : Plugin) (token : jsstring)
        (st : state World) :
  token <> [] ->
  startsWith token (js "v4.local.") = true ->
  let call :=
    call_decrypt (secretKey p) token {| decrypt_validatePayload := true |} in
  let answer :=
    decrypt (secretKey p) token {| decrypt_validatePayload := true |}
            (world st) in
  world (snd (verify World decrypt p (Some token) st)) = snd answer /\
  (forall r : Decrypted,
     fst answer = Ok r ->
     fst (verify World decrypt p (Some token) st) = Ok (VPayload (payload r)) /\
     trace (snd (verify World decrypt p (Some token) st)) =
       trace st ++ [call]) /\
  (forall e : error,
     fst answer = Throw e ->
     fst (verify World decrypt p (Some token) st) = Ok VFalse /\
     trace (snd (verify World decrypt p (Some token) st)) =
       trace st ++
       [call; console_error (js "PASETO verification failed:") e]).
Proof.
  intros Hne Hpre call answer. subst call answer.
  unfold verify. assert (truthy_string token = true) as -> by by destruct token.
  cbn [negb]. rewrite Hpre. cbn [negb].
  unfold try_catch, bind, do_decrypt, emit, ret.
  destruct (decrypt _ _ _ _) as [[r|e] w]; cbn.
  - split; [done|]. split; [by intros ? [= <-] | discriminate].
  - split; [done|]. split; [discriminate|].
    intros ? [= <-]. by rewrite <- app_assoc.
Qed.

(** [sign] and then [verify], on the same plugin: when [encrypt] returns a
    token with the version prefix and [decrypt] accepts that token in the
    world [encrypt] left, [verify] returns what [decrypt] decoded; the two
    calls carry the same key, and the token goes from the one to the other
    unchanged. *)
Theorem sign_then_verify_composes (p : Plugin) (caller : PayloadObject)
        (st st1 : state World) (token : jsstring) (r : Decrypted) (w : World) :
  sign World encrypt p caller st = (Ok token, st1) ->
  startsWith token (js "v4.local.") = true ->
  decrypt (secretKey p) token {| decrypt_validatePayload := true |}
          (world st1) = (Ok r, w) ->
  exists (claims : PasetoPayload) (options : EncryptOptions),
    verify World decrypt p (Some token) st1 =
    (Ok (VPayload (payload r)),
     {| world := w;
        trace := trace st ++
                 [call_encrypt (secretKey p) claims options;
                  call_decrypt (secretKey p) token
                               {| decrypt_validatePayload := true |}] |}).
Proof.
  intros Hsign Hpre Hdec.
  exists (tokenPayload p caller), (sign_options caller).
  rewrite sign_run in Hsign. injection Hsign as _ <-. cbn [world trace] in *.
  assert (Hne : truthy_string token = true).
  { apply startsWith_spec in Hpre as (t & ->). done. }
  unfold verify. rewrite Hne. cbn [negb]. rewrite Hpre. cbn [negb].
  unfold try_catch, bind, do_decrypt, ret. cbn [world trace].
  rewrite Hdec. by rewrite <- app_assoc.
Qed.

(** A falsy [exp] option (the number 0, the empty string) configures
    nothing: the plugin signs and verifies exactly as one built from the
    same secret with no [exp] at all, and its default duration is the
    fallback "1 hour", which [sign] never uses. *)
Theorem falsy_exp_is_no_exp (o1 o2 : PasetoOptions) (p1 p2 : Plugin) :
  paseto (Some o1) = Ok p1 ->
  paseto (Some o2) = Ok p2 ->
  secret o1 = secret o2 ->
  truthy_exp (exp o1) = false ->
  exp o2 = None ->
  defaultExpiration p1 = js "1 hour" /\
  (forall (claims : PayloadObject) (st : state World),
     sign World encrypt p1 claims st = sign World encrypt p2 claims st /\
     tokenPayload p1 claims = spread claims) /\
  (forall (token : option jsstring) (st : state World),
     verify World decrypt p1 token st = verify World decrypt p2 token st).
Proof.
  intros Hp1 Hp2 Hsec Hf1 Hn2.
  destruct (paseto_inversion _ _ Hp1)
    as (o1' & s1 & [= <-] & Hs1 & _ & Hk1 & _ & _ & _ & Hc1 & Hd1 & _).
  destruct (paseto_inversion _ _ Hp2)
    as (o2' & s2 & [= <-] & Hs2 & _ & Hk2 & _ & _ & _ & Hc2 & _ & _).
  assert (Hkey : secretKey p1 = secretKey p2).
  { rewrite Hsec, Hs2 in Hs1. injection Hs1 as ->. congruence. }
  split; [by apply Hd1|]. split.
  - intros claims st. unfold sign, tokenPayload.
    rewrite Hc1, Hc2, Hf1, Hn2, Hkey. cbn [truthy_exp].
    by rewrite !andb_false_r.
  - intros token st. unfold verify. by rewrite Hkey.
Qed.

End MoreSignVerify.

(* ===================================================================== *)
(** ** Further properties on concrete runs *)
(* ===================================================================== *)

Lemma sign_always_names_an_expiry_witness :
  exists (claims : PasetoPayload) (opts : EncryptOptions),
    trace (snd (sign TestCodec.World TestCodec.encrypt
                     (test_plugin (Some (ExpString (js "1h"))) (js "1 hours"))
                     (plain user_claims) TestCodec.start)) =
      trace TestCodec.start ++
      [call_encrypt
         (secretKey (test_plugin (Some (ExpString (js "1h"))) (js "1 hours")))
         claims opts] /\
    (truthy (get_exp claims) = true \/ addExp opts = true) /\
    (truthy_exp (Some (test_options (Some (ExpString (js "1h")))) ≫= exp)
       = true -> truthy (get_exp claims) = true) /\
    (addExp opts = false ->
     claims = spread (plain user_claims) /\
     truthy (get_exp (spread (plain user_claims))) = true).
Proof.
  apply (sign_always_names_an_expiry TestCodec.encrypt
           (Some (test_options (Some (ExpString (js "1h")))))).
  - vm_compute. reflexivity.
  - reflexivity.
Defined.

Lemma sign_misses_exp_outside_copy_witness :
  exists (claims : PasetoPayload) (opts : EncryptOptions),
    trace (snd (sign TestCodec.World TestCodec.encrypt
                     (test_plugin None (js "1 hour"))
                     (claims_inheriting_exp (JStr customExp))
                     TestCodec.start)) =
      trace TestCodec.start ++
      [call_encrypt (secretKey (test_plugin None (js "1 hour")))
                    claims opts] /\
    addExp opts = false /\
    (truthy_exp (configured_exp (test_plugin None (js "1 hour"))) = true ->
     claims !! js "exp" =
       Some (JStr (defaultExpiration (test_plugin None (js "1 hour"))))) /\
    (truthy_exp (configured_exp (test_plugin None (js "1 hour"))) = false ->
     claims !! js "exp" = None).
Proof.
  apply (sign_misses_exp_outside_copy TestCodec.encrypt
           (test_plugin None (js "1 hour"))
           (claims_inheriting_exp (JStr customExp)) (JStr customExp));
    reflexivity.
Defined.

Lemma sign_default_is_parsed_exp_witness :
  exists (claims : PasetoPayload) (opts : EncryptOptions),
    trace (snd (sign TestCodec.World TestCodec.encrypt
                     (test_plugin (Some (ExpNumber 300)) (js "5 minutes"))
                     (plain user_claims) TestCodec.start)) =
      trace TestCodec.start ++
      [call_encrypt
         (secretKey (test_plugin (Some (ExpNumber 300)) (js "5 minutes")))
         claims opts] /\
    (claims = spread (plain user_claims) \/
     exists (e : exp_option) (text : jsstring),
       Some (test_options (Some (ExpNumber 300))) ≫= exp = Some e /\
       convertExpiration e = Ok text /\
       truthy (get_exp (spread (plain user_claims))) = false /\
       claims = <[js "exp" := JStr text]> (spread (plain user_claims))).
Proof.
  apply (sign_default_is_parsed_exp TestCodec.encrypt
           (Some (test_options (Some (ExpNumber 300))))).
  vm_compute. reflexivity.
Defined.

Lemma verify_decrypts_once_witness :
  fst (verify TestCodec.World TestCodec.decrypt
              (test_plugin None (js "1 hour"))
              (Some (js "v4.local.something")) TestCodec.start) = Ok VFalse /\
  trace (snd (verify TestCodec.World TestCodec.decrypt
                     (test_plugin None (js "1 hour"))
                     (Some (js "v4.local.something")) TestCodec.start)) =
    trace TestCodec.start ++
    [call_decrypt (secretKey (test_plugin None (js "1 hour")))
                  (js "v4.local.something")
                  {| decrypt_validatePayload := true |};
     console_error (js "PASETO verification failed:")
                   (Error (js "decryption failed"))].
Proof.
  apply (proj2 (proj2 (verify_decrypts_once TestCodec.decrypt
                         (test_plugin None (js "1 hour"))
                         (js "v4.local.something") TestCodec.start
                         ltac:(discriminate) ltac:(reflexivity)))).
  reflexivity.
Defined.

Lemma sign_then_verify_composes_witness :
  exists (token : jsstring) (st1 : state TestCodec.World)
         (r : Decrypted) (w : TestCodec.World),
    sign TestCodec.World TestCodec.encrypt
         (test_plugin (Some (ExpString (js "1h"))) (js "1 hours"))
         (plain user_claims) TestCodec.start = (Ok token, st1) /\
    exists (claims : PasetoPayload) (options : EncryptOptions),
      verify TestCodec.World TestCodec.decrypt
             (test_plugin (Some (ExpString (js "1h"))) (js "1 hours"))
             (Some token) st1 =
      (Ok (VPayload (payload r)),
       {| world := w;
          trace := trace TestCodec.start ++
                   [call_encrypt
                      (secretKey (test_plugin (Some (ExpString (js "1h")))
                                              (js "1 hours")))
                      claims options;
                    call_decrypt
                      (secretKey (test_plugin (Some (ExpString (js "1h")))
                                              (js "1 hours")))
                      token {| decrypt_validatePayload := true |}] |}).
Proof.
  do 4 eexists. split; [vm_compute; reflexivity|].
  eapply (sign_then_verify_composes TestCodec.encrypt TestCodec.decrypt
            (test_plugin (Some (ExpString (js "1h"))) (js "1 hours"))
            (plain user_claims) TestCodec.start);
    vm_compute; reflexivity.
Defined.

Lemma falsy_exp_is_no_exp_witness :
  sign TestCodec.World TestCodec.encrypt
       (test_plugin (Some (ExpNumber 0)) (js "1 hour"))
       (plain user_claims) TestCodec.start =
  sign TestCodec.World TestCodec.encrypt
       (test_plugin None (js "1 hour"))
       (plain user_claims) TestCodec.start /\
  tokenPayload (test_plugin (Some (ExpNumber 0)) (js "1 hour"))
               (plain user_claims)
    = spread (plain user_claims).
Proof.
  apply (proj1 (proj2 (falsy_exp_is_no_exp
                         TestCodec.encrypt TestCodec.decrypt
                         (test_options (Some (ExpNumber 0)))
                         (test_options None)
                         (test_plugin (Some (ExpNumber 0)) (js "1 hour"))
                         (test_plugin None (js "1 hour"))
                         ltac:(vm_compute; reflexivity)
                         ltac:(vm_compute; reflexivity)
                         eq_refl eq_refl eq_refl))).
Defined.

(* ===================================================================== *)
(** ** Further properties: what a key stands for *)
(* ===================================================================== *)

Lemma below_complete (P : N -> bool) (n : nat) :
  forallb P (below n) = true -> forall x : N, x < N.of_nat n -> P x = true.
Proof.
  intros H x Hx. rewrite forallb_forall in H. apply H.
  unfold below. apply in_map_iff. exists (N.to_nat x).
  split; [apply N2Nat.id|]. apply in_seq. lia.
Qed.

Lemma sextets_check_bytes (va vb : N) :
  va < 256 -> vb < 256 -> sextets_check va vb = true.
Proof.
  intros Ha Hb.
  apply (below_complete (fun vb => sextets_check va vb) 256); [|exact Hb].
  revert va Ha.
  apply (below_complete
           (fun va => forallb (fun vb => sextets_check va vb) (below 256)) 256).
  vm_compute. reflexivity.
Qed.

Lemma base64url_index_char (sextet : N) :
  sextet < 64 -> base64url_index (base64url_char sextet) = Some sextet.
Proof.
  intros H.
  pose proof (below_complete
                (fun x => match base64url_index (base64url_char x) with
                          | Some y => y =? x
                          | None => false
                          end)
                64 ltac:(vm_compute; reflexivity) sextet H) as Hx.
  cbv beta in Hx.
  destruct (base64url_index (base64url_char sextet)) as [y|]; [|discriminate].
  by apply N.eqb_eq in Hx as ->.
Qed.

Lemma byte_value_bounded (b : byte) : Byte.to_N b < 256.
Proof. pose proof (Byte.to_N_bounded b). lia. Qed.

Lemma byte_of_to_N (b : byte) : byte_of_N (Byte.to_N b) = b.
Proof.
  unfold byte_of_N. rewrite N.mod_small by apply byte_value_bounded.
  by rewrite Byte.of_to_N.
Qed.

Lemma byte_of_N_eq (n : N) (b : byte) : n = Byte.to_N b -> byte_of_N n = b.
Proof. intros ->. apply byte_of_to_N. Qed.

Lemma base64url_group (a b c : byte) (l : list byte) :
  base64url (a :: b :: c :: l) =
  [base64url_char (N.shiftr (Byte.to_N a) 2);
   base64url_char (N.lor (N.shiftl (N.land (Byte.to_N a) 3) 4)
                         (N.shiftr (Byte.to_N b) 4));
   base64url_char (N.lor (N.shiftl (N.land (Byte.to_N b) 15) 2)
                         (N.shiftr (Byte.to_N c) 6));
   base64url_char (N.land (Byte.to_N c) 63)] ++ base64url l.
Proof. reflexivity. Qed.

(** Spelling the check out for the bytes [a] and [b]. *)
Ltac sextets a b :=
  let H := fresh "H" in
  pose proof (sextets_check_bytes (Byte.to_N a) (Byte.to_N b)
                (byte_value_bounded a) (byte_value_bounded b)) as H;
  unfold sextets_check in H; cbv zeta in H;
  repeat (apply andb_true_iff in H as [H ?]);
  repeat match goal with
         | Hx : (_ <? _) = true |- _ => apply N.ltb_lt in Hx
         | Hx : (_ =? _) = true |- _ => apply N.eqb_eq in Hx
         end.

(** The text [base64url] writes is read back to the bytes it was written
    from. *)
Lemma base64url_decode_encode (bs : list byte) :
  base64url_decode (base64url bs) = Some bs.
Proof.
  induction bs as [| a | a b | a b c l IH] using list_ind3.
  - reflexivity.
  - sextets a a. cbn [base64url base64url_decode].
    rewrite !base64url_index_char by done.
    repeat f_equal; apply byte_of_N_eq; lia.
  - sextets a b. sextets b b. cbn [base64url base64url_decode].
    rewrite !base64url_index_char by done.
    repeat f_equal; apply byte_of_N_eq; lia.
  - sextets a b. sextets b c. rewrite base64url_group.
    cbn [app base64url_decode].
    rewrite !base64url_index_char, IH by done.
    repeat f_equal; apply byte_of_N_eq; lia.
Qed.

Lemma base64url_inj (bs1 bs2 : list byte) :
  base64url bs1 = base64url bs2 -> bs1 = bs2.
Proof.
  intros H. apply (f_equal base64url_decode) in H.
  rewrite !base64url_decode_encode in H. by injection H.
Qed.

(** *** The encoder *)

Lemma utf8_code_point_length (cp : N) :
  (1 <= length (utf8_code_point cp))%nat /\
  (0x800 <= cp -> (2 <= length (utf8_code_point cp))%nat).
Proof.
  unfold utf8_code_point.
  destruct (N.ltb_spec cp 0x80); [cbn; lia|].
  destruct (N.ltb_spec cp 0x800); [cbn; lia|].
  destruct (N.ltb_spec cp 0x10000); cbn; lia.
Qed.

(** Every code unit gives at least one byte. *)
Lemma TextEncoder_encode_length (s : jsstring) :
  (length s <= length (TextEncoder_encode s))%nat.
Proof.
  cut (forall n s, (length s <= n)%nat ->
                   (length s <= length (TextEncoder_encode s))%nat).
  { intros H. by apply (H (length s)). }
  clear s. induction n as [|n IH]; intros [|c s] Hn; cbn [length] in *;
    try lia.
  cbn [TextEncoder_encode].
  pose proof (utf8_code_point_length c) as [Hc _].
  pose proof (utf8_code_point_length 0xFFFD) as [_ Hr].
  destruct (is_high_surrogate c).
  - destruct s as [|d s]; [cbn; lia|].
    destruct (is_low_surrogate d).
    + pose proof (utf8_code_point_length
                    (0x10000 + (c - 0xD800) * 0x400 + (d - 0xDC00)))
        as [_ Hp].
      pose proof (IH s ltac:(cbn [length] in Hn; lia)).
      rewrite length_app. cbn [length] in *. lia.
    + pose proof (IH (d :: s) ltac:(lia)).
      rewrite length_app. cbn [length] in *. lia.
  - destruct (is_low_surrogate c);
      pose proof (IH s ltac:(lia)); rewrite length_app; lia.
Qed.

Lemma ascii_not_surrogate (c : code_unit) :
  c < 128 ->
  is_high_surrogate c = false /\ is_low_surrogate c = false /\
  utf8_code_point c = [byte_of_N c].
Proof.
  intros Hc. unfold is_high_surrogate, is_low_surrogate, utf8_code_point.
  destruct (N.leb_spec 0xD800 c); [lia|].
  destruct (N.leb_spec 0xDC00 c); [lia|].
  destruct (N.ltb_spec c 0x80); [done|lia].
Qed.

(** An ASCII string is encoded unit by unit, whatever follows it. *)
Lemma TextEncoder_encode_ascii_app (s t : jsstring) :
  ascii_string s ->
  TextEncoder_encode (s ++ t) = map byte_of_N s ++ TextEncoder_encode t.
Proof.
  induction 1 as [|c s Hc _ IH]; [done|].
  destruct (ascii_not_surrogate c Hc) as (Hh & Hl & Hu).
  cbn [app TextEncoder_encode map]. by rewrite Hh, Hl, Hu, IH.
Qed.

Lemma TextEncoder_encode_ascii (s : jsstring) :
  ascii_string s -> TextEncoder_encode s = map byte_of_N s.
Proof.
  intros Hs. rewrite <- (app_nil_r s) at 1.
  rewrite TextEncoder_encode_ascii_app by done. apply app_nil_r.
Qed.

Lemma startsWith_app_long (s t p : jsstring) :
  (length p <= length s)%nat -> startsWith (s ++ t) p = startsWith s p.
Proof.
  revert s. induction p as [|c p IH]; intros [|d s] Hlen;
    cbn [length] in Hlen; cbn [app startsWith]; try lia; try done.
  - by destruct t.
  - rewrite IH by lia. done.
Qed.

Lemma startsWith_take (s p : jsstring) (n : nat) :
  (length p <= n)%nat -> startsWith (take n s) p = startsWith s p.
Proof.
  revert s n. induction p as [|c p IH]; intros [|d s] [|n] Hlen;
    cbn [length] in Hlen; cbn [take startsWith]; try lia; try done.
  rewrite IH by lia. done.
Qed.

Lemma byte_to_of_N (n : N) : n < 256 -> Byte.to_N (byte_of_N n) = n.
Proof.
  intros Hn. unfold byte_of_N. rewrite N.mod_small by done.
  destruct (Byte.of_N n) as [b|] eqn:Hb.
  - by apply Byte.to_of_N.
  - apply Byte.of_N_None_iff in Hb. lia.
Qed.

Lemma map_byte_of_N_inj (s1 s2 : jsstring) :
  Forall (fun c => c < 256) s1 -> Forall (fun c => c < 256) s2 ->
  map byte_of_N s1 = map byte_of_N s2 -> s1 = s2.
Proof.
  intros H1. revert s2. induction H1 as [|c s1 Hc _ IH];
    intros [|d s2] H2 Heq; try done.
  inversion_clear H2 as [|? ? Hd H2']. injection Heq as Hb Heq.
  f_equal; [|by apply IH].
  by rewrite <- (byte_to_of_N c), <- (byte_to_of_N d), Hb.
Qed.

(** Two lists followed by copies of a filler they do not contain. *)
Lemma app_replicate_inj {A} (x : A) (l1 l2 : list A) (n1 n2 : nat) :
  ~ In x l1 -> ~ In x l2 ->
  l1 ++ replicate n1 x = l2 ++ replicate n2 x -> l1 = l2.
Proof.
  revert l2. induction l1 as [|a l1 IH]; intros [|b l2] H1 H2 Heq.
  - done.
  - destruct n1; [done|]. injection Heq as <- _. cbn in H2. tauto.
  - destruct n2; [done|]. injection Heq as -> _. cbn in H1. tauto.
  - injection Heq as -> Heq. f_equal. apply IH; cbn in H1, H2; tauto.
Qed.

Lemma prepareSecret_same_key_cut (s1 s2 : jsstring) :
  startsWith s1 paserk_prefix = false ->
  startsWith s2 paserk_prefix = false ->
  prepareSecret s1 = prepareSecret s2 ->
  pad_or_truncate 32 (TextEncoder_encode s1) =
  pad_or_truncate 32 (TextEncoder_encode s2).
Proof.
  intros H1 H2. rewrite !prepareSecret_derived by done.
  intros [= H]. by apply base64url_inj in H.
Qed.

(** Two secrets outside the passthrough branch get the same key exactly
    when their UTF-8 bytes are equal after the cut to 32 bytes. *)
Theorem prepareSecret_same_key_iff (s1 s2 : jsstring) :
  startsWith s1 paserk_prefix = false ->
  startsWith s2 paserk_prefix = false ->
  (prepareSecret s1 = prepareSecret s2 <->
   pad_or_truncate 32 (TextEncoder_encode s1) =
   pad_or_truncate 32 (TextEncoder_encode s2)).
Proof.
  intros H1 H2. split; [by apply prepareSecret_same_key_cut|].
  rewrite !prepareSecret_derived by done. by intros ->.
Qed.

Lemma prepareSecret_same_key_iff_witness :
  prepareSecret short_secret = prepareSecret short_secret_nul <->
  pad_or_truncate 32 (TextEncoder_encode short_secret) =
  pad_or_truncate 32 (TextEncoder_encode short_secret_nul).
Proof.
  apply (prepareSecret_same_key_iff short_secret short_secret_nul);
    reflexivity.
Defined.

(** A secret of 32 code units or more is never padded: its key is made of
    the first 32 bytes of its UTF-8 text. *)
Theorem prepareSecret_long_secret (secret : jsstring) :
  (32 <= length secret)%nat ->
  startsWith secret paserk_prefix = false ->
  prepareSecret secret =
  Ok (paserk_prefix ++ base64url (take 32 (TextEncoder_encode secret))).
Proof.
  intros Hlen Hpre. rewrite prepareSecret_derived by done.
  rewrite pad_or_truncate_long; [done|].
  pose proof (TextEncoder_encode_length secret). lia.
Qed.

Lemma prepareSecret_long_secret_witness :
  prepareSecret long_secret =
  Ok (paserk_prefix ++ base64url (take 32 (TextEncoder_encode long_secret))).
Proof.
  apply prepareSecret_long_secret; [vm_compute; lia | reflexivity].
Defined.

(** When the first 32 code units of a secret are ASCII, nothing after them
    matters: the secret gets the key of its first 32 characters. *)
Theorem prepareSecret_ignores_tail (secret : jsstring) :
  (32 <= length secret)%nat ->
  ascii_string (take 32 secret) ->
  startsWith secret paserk_prefix = false ->
  prepareSecret secret = prepareSecret (take 32 secret).
Proof.
  intros Hlen Hascii Hpre.
  assert (Hpre' : startsWith (take 32 secret) paserk_prefix = false).
  { rewrite startsWith_take; [done | cbn; lia]. }
  rewrite !prepareSecret_derived by done. do 3 f_equal.
  rewrite <- (take_drop 32 secret) at 1.
  rewrite TextEncoder_encode_ascii_app by done.
  rewrite (TextEncoder_encode_ascii (take 32 secret)) by done.
  assert (Hl : length (map byte_of_N (take 32 secret)) = 32%nat).
  { rewrite length_map, length_take. lia. }
  rewrite !pad_or_truncate_long by (rewrite ?length_app; lia).
  rewrite take_app_le by lia. done.
Qed.

Lemma prepareSecret_ignores_tail_witness :
  prepareSecret long_secret = prepareSecret long_secret_cut.
Proof.
  apply (prepareSecret_ignores_tail long_secret);
    [vm_compute; lia | | reflexivity].
  vm_compute. repeat constructor.
Defined.

(** Among ASCII secrets of at most 32 characters, without NUL and outside
    the passthrough branch, different secrets get different keys. *)
Theorem prepareSecret_injective_on_short_ascii (s1 s2 : jsstring) :
  ascii_no_nul s1 -> ascii_no_nul s2 ->
  (length s1 <= 32)%nat -> (length s2 <= 32)%nat ->
  startsWith s1 paserk_prefix = false ->
  startsWith s2 paserk_prefix = false ->
  (prepareSecret s1 = prepareSecret s2 <-> s1 = s2).
Proof.
  intros Ha1 Ha2 Hl1 Hl2 Hp1 Hp2. split; [|by intros ->]. intros Hkey.
  apply prepareSecret_same_key_cut in Hkey; [|done..].
  assert (Has : forall s, ascii_no_nul s ->
                 ascii_string s /\ Forall (fun c => c < 256) s /\
                 ~ In x00 (map byte_of_N s)).
  { intros s Hs. split; [|split].
    - eapply Forall_impl; [exact Hs|]. cbn. lia.
    - eapply Forall_impl; [exact Hs|]. cbn. lia.
    - intros (c & Hc & Hin)%in_map_iff.
      unfold ascii_no_nul in Hs. rewrite Forall_forall in Hs.
      apply list_elem_of_In, Hs in Hin.
      apply (f_equal Byte.to_N) in Hc. rewrite byte_to_of_N in Hc by lia.
      cbn in Hc. lia. }
  destruct (Has s1 Ha1) as (Hs1 & Hb1 & Hz1).
  destruct (Has s2 Ha2) as (Hs2 & Hb2 & Hz2).
  rewrite !TextEncoder_encode_ascii in Hkey by done.
  rewrite !pad_or_truncate_short in Hkey by (rewrite length_map; lia).
  apply app_replicate_inj in Hkey; [|done..].
  by apply map_byte_of_N_inj.
Qed.

Lemma prepareSecret_injective_on_short_ascii_witness :
  prepareSecret testSecret =
  prepareSecret (js "test-secret-key-32-bytes-long!") <->
  testSecret = js "test-secret-key-32-bytes-long!".
Proof.
  apply (prepareSecret_injective_on_short_ascii
           testSecret (js "test-secret-key-32-bytes-long!"));
    try (vm_compute; lia); try reflexivity;
    vm_compute; repeat constructor.
Defined.

(* ===================================================================== *)
(** ** Further properties: durations *)
(* ===================================================================== *)

Lemma js_String (a : ascii) (s : string) : js (String a s) = N_of_ascii a :: js s.
Proof. reflexivity. Qed.

Lemma js_inj (s1 s2 : string) : js s1 = js s2 -> s1 = s2.
Proof.
  revert s2. induction s1 as [|a s1 IH]; intros [|b s2]; try done.
  rewrite !js_String. intros [= Ha Hs]. f_equal; [|by apply IH].
  by rewrite <- (ascii_N_embedding a), <- (ascii_N_embedding b), Ha.
Qed.

Lemma pretty_N_char_digit (x : N) :
  48 <= N_of_ascii (pretty_N_char x) <= 57.
Proof. unfold pretty_N_char. repeat case_match; cbn; lia. Qed.

(** The decimal numeral of a natural number: digits, and at least one. *)
Lemma pretty_N_go_digits (x : N) (acc : string) :
  Forall (fun c => 48 <= c <= 57) (js acc) ->
  Forall (fun c => 48 <= c <= 57) (js (pretty_N_go x acc)) /\
  (0 < x \/ js acc <> [] -> js (pretty_N_go x acc) <> []).
Proof.
  revert acc. induction (N.lt_wf_0 x) as [x _ IH]; intros acc Hacc.
  destruct (N.eq_0_gt_0_cases x) as [->|Hx].
  - rewrite pretty_N_go_0. split; [done|]. intros [?|?]; [lia|done].
  - rewrite pretty_N_go_step by done.
    destruct (IH (x `div` 10) ltac:(by apply N.div_lt)
                 (String (pretty_N_char (x `mod` 10)) acc)) as [Hd Hne].
    { rewrite js_String. constructor; [apply pretty_N_char_digit|done]. }
    split; [done|]. intros _. apply Hne. right. by rewrite js_String.
Qed.

Lemma Number_toString_digits (k : Z) :
  (0 <= k)%Z ->
  Forall (fun c => 48 <= c <= 57) (Number_toString k) /\
  Number_toString k <> [].
Proof.
  intros Hk. unfold Number_toString. destruct k as [|p|p]; [| |lia].
  - split; [|done]. repeat constructor; cbn; lia.
  - change (pretty (Z.pos p)) with (pretty_N_go (N.pos p) "").
    destruct (pretty_N_go_digits (N.pos p) "" ltac:(constructor)) as [Hd Hne].
    split; [done|]. apply Hne. left. lia.
Qed.

Lemma convertExpiration_pattern (s digits : jsstring) (letter : code_unit) :
  duration_pattern s digits letter ->
  convertExpiration (ExpString s) = Ok (digits ++ js " " ++ unit_name letter).
Proof.
  intros Hp.
  assert (match_expiration s = Some (digits, [letter])) as Hm.
  { apply match_expiration_spec. by exists letter. }
  unfold convertExpiration. rewrite Hm.
  destruct Hp as (_ & _ & _ & Hl).
  by rewrite (lookup_unit_letter letter Hl).
Qed.

(** A string made of the numeral of [k] and a unit letter is parsed to the
    numeral, a space and the unit. *)
Lemma convertExpiration_numeral (k : Z) (letter : code_unit) :
  (0 <= k)%Z -> In letter (js "smhdw") ->
  convertExpiration (ExpString (Number_toString k ++ [letter])) =
  Ok (Number_toString k ++ js " " ++ unit_name letter).
Proof.
  intros Hk Hl. destruct (Number_toString_digits k Hk) as [Hd Hne].
  apply convertExpiration_pattern. by repeat split.
Qed.

(** The two ways of writing a duration agree, as long as the number of
    seconds is a safe integer.  For [k >= 0], the string of [k] days and
    the number of seconds in [k] days are parsed to the same text; so are
    [k] hours, minutes or seconds and their number of seconds, as long as
    [k] is not a whole number of the next larger unit (24 hours are
    "24 hours" as a string and "1 days" as 86400). *)
Theorem convertExpiration_string_and_number_agree (k : Z) :
  (0 <= k)%Z ->
  (safe_integer (86400 * k) ->
   convertExpiration (ExpString (Number_toString k ++ js "d")) =
     convertExpiration (ExpNumber (86400 * k))) /\
  (safe_integer (3600 * k) -> (k mod 24 <> 0)%Z ->
   convertExpiration (ExpString (Number_toString k ++ js "h")) =
     convertExpiration (ExpNumber (3600 * k))) /\
  (safe_integer (60 * k) -> (k mod 60 <> 0)%Z ->
   convertExpiration (ExpString (Number_toString k ++ js "m")) =
     convertExpiration (ExpNumber (60 * k))) /\
  (safe_integer k -> (k mod 60 <> 0)%Z ->
   convertExpiration (ExpString (Number_toString k ++ js "s")) =
     convertExpiration (ExpNumber k)).
Proof.
  intros Hk.
  assert (Hrem : forall a b : Z, (0 <= a)%Z -> (0 < b)%Z ->
                   ((Z.rem a b =? 0)%Z = true <-> (a mod b = 0)%Z)).
  { intros a b Ha Hb. rewrite Z.rem_mod_nonneg by lia. apply Z.eqb_eq. }
  assert (Hnrem : forall a b : Z, (0 <= a)%Z -> (0 < b)%Z ->
                   (a mod b <> 0)%Z -> (Z.rem a b =? 0)%Z = false).
  { intros a b Ha Hb Hne. rewrite Z.rem_mod_nonneg by lia.
    by apply Z.eqb_neq. }
  split; [|split; [|split]].
  - intros _. change (js "d") with [100].
    rewrite (convertExpiration_numeral k 100) by (done || cbn; tauto).
    cbn [convertExpiration].
    rewrite (proj2 (Hrem (86400 * k)%Z 86400%Z ltac:(lia) ltac:(lia)))
      by (rewrite Z.mul_comm; apply Z.mod_mul; lia).
    by rewrite Z.mul_comm, Z.quot_mul by lia.
  - intros _ H24.
    change (js "h") with [104].
    rewrite (convertExpiration_numeral k 104) by (done || cbn; tauto).
    cbn [convertExpiration].
    assert (E1 : (Z.rem (3600 * k) 86400 =? 0)%Z = false).
    { apply Hnrem; [lia|lia|]. intros H. apply H24.
      apply Z.mod_divide in H as [q Hq]; [|lia].
      apply Z.mod_divide; [lia|]. exists q. lia. }
    rewrite E1.
    rewrite (proj2 (Hrem (3600 * k)%Z 3600%Z ltac:(lia) ltac:(lia)))
      by (rewrite Z.mul_comm; apply Z.mod_mul; lia).
    by rewrite Z.mul_comm, Z.quot_mul by lia.
  - intros _ H60.
    change (js "m") with [109].
    rewrite (convertExpiration_numeral k 109) by (done || cbn; tauto).
    cbn [convertExpiration].
    assert (E1 : (Z.rem (60 * k) 86400 =? 0)%Z = false).
    { apply Hnrem; [lia|lia|]. intros H. apply H60.
      apply Z.mod_divide in H as [q Hq]; [|lia].
      apply Z.mod_divide; [lia|]. exists (24 * q)%Z. lia. }
    assert (E2 : (Z.rem (60 * k) 3600 =? 0)%Z = false).
    { apply Hnrem; [lia|lia|]. intros H. apply H60.
      apply Z.mod_divide in H as [q Hq]; [|lia].
      apply Z.mod_divide; [lia|]. exists q. lia. }
    rewrite E1, E2.
    rewrite (proj2 (Hrem (60 * k)%Z 60%Z ltac:(lia) ltac:(lia)))
      by (rewrite Z.mul_comm; apply Z.mod_mul; lia).
    by rewrite Z.mul_comm, Z.quot_mul by lia.
  - intros _ H60.
    change (js "s") with [115].
    rewrite (convertExpiration_numeral k 115) by (done || cbn; tauto).
    cbn [convertExpiration].
    assert (E1 : (Z.rem k 86400 =? 0)%Z = false).
    { apply Hnrem; [lia|lia|]. intros H. apply H60.
      apply Z.mod_divide in H as [q Hq]; [|lia].
      apply Z.mod_divide; [lia|]. exists (1440 * q)%Z. lia. }
    assert (E2 : (Z.rem k 3600 =? 0)%Z = false).
    { apply Hnrem; [lia|lia|]. intros H. apply H60.
      apply Z.mod_divide in H as [q Hq]; [|lia].
      apply Z.mod_divide; [lia|]. exists (60 * q)%Z. lia. }
    assert (E3 : (Z.rem k 60 =? 0)%Z = false) by (apply Hnrem; lia).
    by rewrite E1, E2, E3.
Qed.

Lemma convertExpiration_string_and_number_agree_witness :
  convertExpiration (ExpString (Number_toString 5 ++ js "m")) =
  convertExpiration (ExpNumber (60 * 5)).
Proof.
  apply (convertExpiration_string_and_number_agree 5);
    [lia | unfold safe_integer; lia | done].
Defined.

Lemma Number_toString_no_space (z : Z) : ~ In 32 (Number_toString z).
Proof.
  assert (Hd : forall l : jsstring,
             Forall (fun c => 48 <= c <= 57) l -> ~ In 32 l).
  { intros l Hl Hin. rewrite Forall_forall in Hl.
    apply list_elem_of_In, Hl in Hin. lia. }
  destruct z as [|p|p].
  - apply Hd, (Number_toString_digits 0). lia.
  - apply Hd, (Number_toString_digits (Z.pos p)). lia.
  - unfold Number_toString.
    change (pretty (Z.neg p)) with (String "-" (pretty (Z.pos p))).
    rewrite js_String. intros [Hin|Hin]; [discriminate|].
    by apply (Hd _ (proj1 (Number_toString_digits (Z.pos p) ltac:(lia)))).
Qed.

(** Two texts cut at their first separator. *)
Lemma app_sep_inj {A} (x : A) (l1 l2 r1 r2 : list A) :
  ~ In x l1 -> ~ In x l2 ->
  l1 ++ x :: r1 = l2 ++ x :: r2 -> l1 = l2 /\ r1 = r2.
Proof.
  revert l2. induction l1 as [|a l1 IH]; intros [|b l2] H1 H2 Heq.
  - by injection Heq as ->.
  - injection Heq as -> _. cbn in H2. tauto.
  - injection Heq as -> _. cbn in H1. tauto.
  - injection Heq as -> Heq.
    destruct (IH l2) as [-> ->]; cbn in H1, H2; tauto || done.
Qed.

(** The text for a number of seconds, of either sign: an exact quotient by
    one of the four unit sizes, then the unit. *)
Lemma convertExpiration_number_form (n : Z) :
  exists (size : Z) (unit : jsstring),
    In (size, 32 :: unit) numeric_units /\
    (n = size * Z.quot n size)%Z /\
    convertExpiration (ExpNumber n) =
      Ok (Number_toString (Z.quot n size) ++ 32 :: unit).
Proof.
  assert (Hexact : forall b : Z, (b <> 0)%Z -> (Z.rem n b =? 0)%Z = true ->
                     (n = b * Z.quot n b)%Z).
  { intros b Hb Hr%Z.eqb_eq. pose proof (Z.quot_rem' n b). lia. }
  cbn [convertExpiration].
  destruct (Z.rem n 86400 =? 0)%Z eqn:H1;
    [|destruct (Z.rem n 3600 =? 0)%Z eqn:H2;
      [|destruct (Z.rem n 60 =? 0)%Z eqn:H3]].
  - exists 86400%Z, (js "days"). split; [by left|]. split; [|done].
    by apply Hexact.
  - exists 3600%Z, (js "hours"). split; [by right; left|]. split; [|done].
    by apply Hexact.
  - exists 60%Z, (js "minutes"). split; [by right; right; left|].
    split; [|done]. by apply Hexact.
  - exists 1%Z, (js "seconds"). split; [by right; right; right; left|].
    rewrite Z.quot_1_r. split; [lia|done].
Qed.

(** No two numbers of seconds are parsed to the same text: the number can
    be told from the default duration it configures. *)
Theorem convertExpiration_number_injective (n1 n2 : Z) :
  convertExpiration (ExpNumber n1) = convertExpiration (ExpNumber n2) <->
  n1 = n2.
Proof.
  split; [|by intros ->].
  destruct (convertExpiration_number_form n1) as (z1 & u1 & Hin1 & Hn1 & ->).
  destruct (convertExpiration_number_form n2) as (z2 & u2 & Hin2 & Hn2 & ->).
  intros [= Heq].
  apply app_sep_inj in Heq as [Hq Hu];
    [|apply Number_toString_no_space..].
  apply js_inj, (inj pretty) in Hq.
  assert (z1 = z2) as ->.
  { cbn in Hin1, Hin2.
    destruct Hin1 as [Hin1|[Hin1|[Hin1|[Hin1|[]]]]];
      destruct Hin2 as [Hin2|[Hin2|[Hin2|[Hin2|[]]]]];
      injection Hin1 as <- <-; injection Hin2 as <- Hu2;
      try done; rewrite <- Hu2 in Hu; discriminate. }
  lia.
Qed.
